(** * Polymer data-binding expression scanner

    A shallow embedding of [src/polymer/expression-scanner.ts]: the raw
    delimiter scanner, the translation of string indexes into source ranges,
    the restricted-grammar validator run by the [DatabindingExpression]
    constructor, and the extractors for text nodes, attributes and string
    literals, with the loop that drives them over templates.  The template
    locator, which only calls [dom5], is left out.

    JavaScript strings are modelled as [string]: a character stands for one
    UTF-16 code unit below 256, so the development covers the texts made of
    such code units only.  String indexes are [nat], and line and column
    numbers are [Z] because the source subtracts them.  Objects that the source mutates in
    place ([results], [warnings], [this.properties], [this.warnings]) are
    threaded explicitly. *)

From Stdlib Require Import List ZArith Arith Bool Lia Ascii String.
From Stdlib Require Import Numbers.DecimalString.
From Equations Require Import Equations.
From Equations.Prop Require Import Logic.
Import ListNotations.

Local Open Scope string_scope.
Local Open Scope list_scope.

(** ** JavaScript string primitives *)

Module JsString.

(** [str.indexOf(search, position)] for a non-empty [search]; [None] stands
    for the result [-1]. *)
Definition indexOf (str search : string) (position : nat) : option nat :=
  index position search str.

(** [str.slice(start, end)] for [0 <= start] and [0 <= end]. *)
Definition slice (str : string) (start stop : nat) : string :=
  substring start (stop - start) str.

(** The characters that [.] does not match in a regular expression are the
    four line terminators of ECMAScript: the line feed, the carriage return,
    U+2028 and U+2029.  Only the first two are below 256, so they are the
    only ones that a string of this development can hold. *)
Definition isLineTerminator (c : ascii) : bool :=
  (c =? "010")%char || (c =? "013")%char.

(** [\d] *)
Definition isDigit (c : ascii) : bool :=
  ((48 <=? nat_of_ascii c) && (nat_of_ascii c <=? 57))%nat.

(** [s] holds no line feed and no carriage return. *)
Fixpoint noLineTerminator (s : string) : bool :=
  match s with
  | EmptyString => true
  | String c s' => negb (isLineTerminator c) && noLineTerminator s'
  end.

(** [s] occurs in [t] at index [i]. *)
Definition occursAt (s t : string) (i : nat) : Prop :=
  substring i (length s) t = s.

End JsString.
Import JsString.

(** ** Raw bindings and the delimiter scanner *)

Inductive Direction : Type :=
| Mustache   (* '{' *)
| Bracket.   (* '[' *)

Record RawDatabinding : Type := mkRawDatabinding {
  rawExpressionText : string;
  startIndex : nat;
  endIndex : nat;
  rawDirection : Direction
}.

(** [openers.exec(str)] for [openers = /{{|\[\[/g] with [openers.lastIndex]
    given: the leftmost occurrence of either opener at or after [lastIndex],
    as the index of the match and the matched text. *)
Definition openers_exec (str : string) (lastIndex : nat) : option (nat * string) :=
  match index lastIndex "{{" str, index lastIndex "[[" str with
  | Some i, Some j => if (i <? j)%nat then Some (i, "{{") else Some (j, "[[")
  | Some i, None => Some (i, "{{")
  | None, Some j => Some (j, "[[")
  | None, None => None
  end.

Definition directionOf (matchedOpeners : string) : Direction :=
  if matchedOpeners =? "{{" then Mustache else Bracket.

Definition closersOf (matchedOpeners : string) : string :=
  if matchedOpeners =? "{{" then "}}" else "]]".

Section IndexFacts.

Lemma prefix_length (s t : string) :
  prefix s t = true -> length s <= length t.
Proof.
revert t; induction s as [|a s IH]; intros [|b t]; simpl; try lia; try discriminate.
destruct (ascii_dec a b); [|discriminate].
intros H; apply IH in H; lia.
Qed.

Lemma index_bounds (s t : string) :
  forall n m, index n s t = Some m -> n <= m /\ m + length s <= length t.
Proof.
induction t as [|b t IH]; intros n m.
- destruct n, s; simpl; try discriminate.
  intros [= <-]; simpl; lia.
- destruct n as [|n]; cbn [index].
  + destruct (prefix s (String b t)) eqn:Hp.
    * intros [= <-]. apply prefix_length in Hp. simpl in *. lia.
    * destruct (index 0 s t) as [k|] eqn:Hi; [|discriminate].
      intros [= <-]. apply IH in Hi. simpl. lia.
  + destruct (index n s t) as [k|] eqn:Hi; [|discriminate].
    intros [= <-]. apply IH in Hi. simpl. lia.
Qed.

Lemma openers_exec_bounds (str : string) (lastIndex idx : nat) (m : string) :
  openers_exec str lastIndex = Some (idx, m) ->
  lastIndex <= idx /\ idx + 2 <= length str.
Proof.
unfold openers_exec.
destruct (index lastIndex "{{" str) as [i|] eqn:Hi;
  destruct (index lastIndex "[[" str) as [j|] eqn:Hj;
  try discriminate;
  try (apply index_bounds in Hi); try (apply index_bounds in Hj);
  simpl in *.
- destruct (i <? j)%nat; intros [= <- <-]; lia.
- intros [= <- <-]; lia.
- intros [= <- <-]; lia.
Qed.

Lemma closers_length (m : string) : length (closersOf m) = 2.
Proof. unfold closersOf; destruct (m =? "{{"); reflexivity. Qed.

End IndexFacts.

(** The [while (match = openers.exec(str))] loop of [findDatabindingInString],
    at its head: [lastIndex] is [openers.lastIndex] and [expressions] the array
    built so far.  The loop ends when no opener is left or, by [break], when
    an opener has no closer. *)
Equations? findDatabindingLoop (str : string) (lastIndex : nat)
    (expressions : list RawDatabinding) : list RawDatabinding
    by wf (length str - lastIndex) lt :=
  findDatabindingLoop str lastIndex expressions
    with inspect (openers_exec str lastIndex) := {
    | exist _ None _ => expressions
    | exist _ (Some (idx, matchedOpeners)) Hm
        with inspect (indexOf str (closersOf matchedOpeners) (idx + 2)) := {
        | exist _ None _ => expressions
        | exist _ (Some endIdx) He =>
            findDatabindingLoop str (endIdx + 2)
              (expressions ++
               [ {| rawExpressionText := slice str (idx + 2) endIdx;
                    startIndex := idx + 2;
                    endIndex := endIdx;
                    rawDirection := directionOf matchedOpeners |} ]) } }.
Proof.
  apply openers_exec_bounds in Hm.
  apply index_bounds in He.
  rewrite closers_length in He. lia.
Qed.

Definition findDatabindingInString (str : string) : list RawDatabinding :=
  findDatabindingLoop str 0 [].

(** ** Source ranges *)

Record SourcePosition : Type := mkPosition { line : Z; column : Z }.

Record SourceRange : Type := mkRange {
  file : string;
  start : SourcePosition;
  end_ : SourcePosition
}.

Record LocationOffset : Type := mkOffset { offset_line : Z; offset_col : Z }.

Definition newline : string := String "010" EmptyString.

(** The loop of [findNewlineIndexes]: [position] is where the next
    [str.indexOf('\n', ...)] starts (0 at first, [prev + 1] afterwards). *)
Equations? findNewlineLoop (str : string) (position : nat) (indexes : list nat)
    : list nat by wf (length str - position) lt :=
  findNewlineLoop str position indexes
    with inspect (indexOf str newline position) := {
    | exist _ None _ => indexes
    | exist _ (Some idx) Hi => findNewlineLoop str (idx + 1) (indexes ++ [idx]) }.
Proof.
  apply index_bounds in Hi. simpl in Hi. lia.
Qed.

Definition findNewlineIndexes (str : string) : list nat :=
  findNewlineLoop str 0 [].

(** The four counters of [indexesToSourceRange]. *)
Record LineCounters : Type := mkCounters {
  startLineNumLinesIntoText : Z;
  startOfLineIndex : Z;
  endLineNumLinesIntoText : Z;
  endOfLineIndex : Z
}.

(** The [for (const index of newlineIndexes)] loop, with its [break]. *)
Fixpoint countLines (startIndex endIndex : Z) (newlineIndexes : list Z)
    (c : LineCounters) : LineCounters :=
  match newlineIndexes with
  | [] => c
  | index :: rest =>
      let c1 :=
        if (index <? startIndex)%Z
        then mkCounters (startLineNumLinesIntoText c + 1) (index + 1)
                        (endLineNumLinesIntoText c) (endOfLineIndex c)
        else c in
      if (index <? endIndex)%Z
      then countLines startIndex endIndex rest
             (mkCounters (startLineNumLinesIntoText c1) (startOfLineIndex c1)
                         (endLineNumLinesIntoText c1 + 1) (index + 1))
      else c1
  end.

Definition indexesToSourceRange (startIndex endIndex : Z) (filename : string)
    (newlineIndexes : list Z) : SourceRange :=
  let c := countLines startIndex endIndex newlineIndexes (mkCounters 0 0 0 0) in
  {| file := filename;
     start := {| line := startLineNumLinesIntoText c;
                 column := startIndex - startOfLineIndex c |};
     end_ := {| line := endLineNumLinesIntoText c;
                column := endIndex - endOfLineIndex c |} |}.

(** Modelled from the spec: the shift of one position by [correctSourceRange],
    which is imported from [../model/model] and is not among the sources.
    The spec adds the offset's line to every line number and, if the
    relative range starts on relative line 0, adds the offset's column to a
    column only when the corresponding line number is still 0. *)
Definition correctPosition (startsOnLine0 : bool) (position : SourcePosition)
    (locationOffset : LocationOffset) : SourcePosition :=
  {| line := line position + offset_line locationOffset;
     column := column position +
               (if startsOnLine0 && (line position =? 0)%Z
                then offset_col locationOffset else 0) |}.

(** Modelled from the spec: [correctSourceRange] of [../model/model], which
    is not among the sources: the composition of a range relative to a
    string with the absolute offset of that string's start, both ends
    shifted by [correctPosition]. *)
Definition correctSourceRange (sourceRange : SourceRange)
    (locationOffset : LocationOffset) : SourceRange :=
  let startsOnLine0 := (line (start sourceRange) =? 0)%Z in
  {| file := file sourceRange;
     start := correctPosition startsOnLine0 (start sourceRange) locationOffset;
     end_ := correctPosition startsOnLine0 (end_ sourceRange) locationOffset |}.

(** ** Warnings *)

(** Modelled from the spec: [Severity] is declared in [../model/model]; the
    spec lists the two severities this file uses. *)
Inductive Severity : Type := INFO | WARNING.

Module Warning.
Record t : Type := make {
  code : string;
  message : string;
  sourceRange : option SourceRange;
  severity : Severity
}.
End Warning.

(** ** The expression AST (ESTree) *)

(** [node.loc]: 1-indexed lines, 0-indexed columns. *)
Record SourceLocation : Type := mkLoc {
  loc_start : SourcePosition;
  loc_end : SourcePosition
}.

Inductive LiteralValue : Type :=
| LString (s : string)
| LNumber (n : Z)
| LBoolean (b : bool)
| LNull
| LRegExp.

(** The expression kinds that the validator never looks into. *)
Inductive OtherExpressionKind : Type :=
| ThisExpression | ArrayExpression | ObjectExpression | FunctionExpression
| ArrowFunctionExpression | UpdateExpression | BinaryExpression
| AssignmentExpression | LogicalExpression | ConditionalExpression
| NewExpression | SequenceExpression | TemplateLiteral | SpreadElement.

#[warnings="-register-all"]
Inductive Node : Type :=
| Literal (value : LiteralValue) (loc : option SourceLocation)
| Identifier (name : string) (loc : option SourceLocation)
| MemberExpression (object property : Node) (computed : bool)
    (loc : option SourceLocation)
| CallExpression (callee : Node) (arguments : list Node)
    (loc : option SourceLocation)
| UnaryExpression (operator : string) (argument : Node)
    (loc : option SourceLocation)
| OtherExpression (kind : OtherExpressionKind) (children : list Node)
    (loc : option SourceLocation).

Inductive OtherStatementKind : Type :=
| EmptyStatement | BlockStatement | VariableDeclaration | FunctionDeclaration
| IfStatement | ReturnStatement | ForStatement | WhileStatement
| ThrowStatement | TryStatement.

Inductive Statement : Type :=
| ExpressionStatement (expression : Node) (loc : option SourceLocation)
| OtherStatement (kind : OtherStatementKind) (loc : option SourceLocation).

Record Program : Type := mkProgram {
  body : list Statement;
  program_loc : option SourceLocation
}.

Definition otherExpressionType (k : OtherExpressionKind) : string :=
  match k with
  | ThisExpression => "ThisExpression"
  | ArrayExpression => "ArrayExpression"
  | ObjectExpression => "ObjectExpression"
  | FunctionExpression => "FunctionExpression"
  | ArrowFunctionExpression => "ArrowFunctionExpression"
  | UpdateExpression => "UpdateExpression"
  | BinaryExpression => "BinaryExpression"
  | AssignmentExpression => "AssignmentExpression"
  | LogicalExpression => "LogicalExpression"
  | ConditionalExpression => "ConditionalExpression"
  | NewExpression => "NewExpression"
  | SequenceExpression => "SequenceExpression"
  | TemplateLiteral => "TemplateLiteral"
  | SpreadElement => "SpreadElement"
  end.

(** [node.type] *)
Definition nodeType (n : Node) : string :=
  match n with
  | Literal _ _ => "Literal"
  | Identifier _ _ => "Identifier"
  | MemberExpression _ _ _ _ => "MemberExpression"
  | CallExpression _ _ _ => "CallExpression"
  | UnaryExpression _ _ _ => "UnaryExpression"
  | OtherExpression k _ _ => otherExpressionType k
  end.

Definition nodeLoc (n : Node) : option SourceLocation :=
  match n with
  | Literal _ l | Identifier _ l | MemberExpression _ _ _ l
  | CallExpression _ _ l | UnaryExpression _ _ l | OtherExpression _ _ l => l
  end.

Definition statementType (s : Statement) : string :=
  match s with
  | ExpressionStatement _ _ => "ExpressionStatement"
  | OtherStatement EmptyStatement _ => "EmptyStatement"
  | OtherStatement BlockStatement _ => "BlockStatement"
  | OtherStatement VariableDeclaration _ => "VariableDeclaration"
  | OtherStatement FunctionDeclaration _ => "FunctionDeclaration"
  | OtherStatement IfStatement _ => "IfStatement"
  | OtherStatement ReturnStatement _ => "ReturnStatement"
  | OtherStatement ForStatement _ => "ForStatement"
  | OtherStatement WhileStatement _ => "WhileStatement"
  | OtherStatement ThrowStatement _ => "ThrowStatement"
  | OtherStatement TryStatement _ => "TryStatement"
  end.

Definition statementLoc (s : Statement) : option SourceLocation :=
  match s with
  | ExpressionStatement _ l | OtherStatement _ l => l
  end.

(** Decimal rendering of a length inside a template string. *)
Definition numberToString (n : nat) : string :=
  NilEmpty.string_of_uint (Nat.to_uint n).

(** ** Databinding expressions and the grammar validator *)

Record Property : Type := mkProperty {
  name : string;
  property_sourceRange : option SourceRange
}.

(** The fields of the abstract class [DatabindingExpression].  The methods
    below take the object under construction as [this] and return it
    updated. *)
Record DatabindingExpression : Type := mkExpression {
  sourceRange : SourceRange;
  warnings : list Warning.t;
  expressionText : string;
  _expressionAst : Program;
  locationOffset : LocationOffset;
  properties : list Property
}.

(** [this.warnings.push(w)] *)
Definition pushWarning (w : Warning.t) (this : DatabindingExpression)
    : DatabindingExpression :=
  mkExpression (sourceRange this) (warnings this ++ [w]) (expressionText this)
    (_expressionAst this) (locationOffset this) (properties this).

(** [this.properties.push(p)] *)
Definition pushProperty (p : Property) (this : DatabindingExpression)
    : DatabindingExpression :=
  mkExpression (sourceRange this) (warnings this) (expressionText this)
    (_expressionAst this) (locationOffset this) (properties this ++ [p]).

(** [sourceRangeForNode(node)], given [node.loc]; [None] is [undefined]. *)
Definition sourceRangeForNode (this : DatabindingExpression)
    (loc : option SourceLocation) : option SourceRange :=
  match loc with
  | None => None
  | Some l =>
      let databindingRelativeSourceRange :=
        {| file := file (sourceRange this);
           start := {| line := line (loc_start l) - 1;
                       column := column (loc_start l) |};
           end_ := {| line := line (loc_end l) - 1;
                      column := column (loc_end l) |} |} in
      Some (correctSourceRange databindingRelativeSourceRange
              (locationOffset this))
  end.

Definition _validationWarning (this : DatabindingExpression)
    (message : string) (loc : option SourceLocation) : Warning.t :=
  {| Warning.code := "invalid-polymer-expression";
     Warning.message := message;
     Warning.sourceRange := sourceRangeForNode this loc;
     Warning.severity := WARNING |}.

Definition notExpectedHere (expression : Node) : string :=
  "Only simple syntax is supported in Polymer databinding expressions. " ++
  nodeType expression ++ " not expected here.".

Fixpoint _extractAndValidateSubExpression (expression : Node)
    (callAllowed : bool) (this : DatabindingExpression)
    {struct expression} : DatabindingExpression :=
  match expression with
  | Literal _ _ => this
  | Identifier name loc =>
      pushProperty
        {| name := name; property_sourceRange := sourceRangeForNode this loc |}
        this
  | MemberExpression object _ _ _ =>
      _extractAndValidateSubExpression object false this
  | CallExpression callee arguments _ =>
      if callAllowed then
        fold_left
          (fun this' arg => _extractAndValidateSubExpression arg false this')
          arguments
          (_extractAndValidateSubExpression callee false this)
      else
        pushWarning
          (_validationWarning this (notExpectedHere expression)
             (nodeLoc expression))
          this
  | UnaryExpression _ _ _ | OtherExpression _ _ _ =>
      pushWarning
        (_validationWarning this (notExpectedHere expression)
           (nodeLoc expression))
        this
  end.

Definition _extractPropertiesAndValidate (this : DatabindingExpression)
    : DatabindingExpression :=
  match body (_expressionAst this) with
  | [expressionStatement] =>
      match expressionStatement with
      | ExpressionStatement expression _ =>
          match expression with
          | UnaryExpression operator argument _ =>
              if operator =? "!"
              then _extractAndValidateSubExpression argument true this
              else
                pushWarning
                  (_validationWarning this
                     "Only the logical not (!) operator is supported."
                     (nodeLoc expression))
                  this
          | _ => _extractAndValidateSubExpression expression true this
          end
      | OtherStatement _ _ =>
          pushWarning
            (_validationWarning this
               ("Expect an expression, not a " ++
                statementType expressionStatement)
               (statementLoc expressionStatement))
            this
      end
  | statements =>
      pushWarning
        (_validationWarning this
           ("Expected one expression, got " ++
            numberToString (List.length statements))
           (program_loc (_expressionAst this)))
        this
  end.

(** The constructor of [DatabindingExpression]. *)
Definition newDatabindingExpression (sourceRange : SourceRange)
    (expressionText : string) (ast : Program) : DatabindingExpression :=
  _extractPropertiesAndValidate
    {| sourceRange := sourceRange;
       warnings := [];
       expressionText := expressionText;
       _expressionAst := ast;
       locationOffset := {| offset_line := line (start sourceRange);
                            offset_col := column (start sourceRange) |};
       properties := [] |}.

(** ** The HTML tree (parse5) and the expression sites *)

Record ASTAttribute : Type := mkAttr {
  attr_name : string;
  attr_value : string
}.

Record ASTNode : Type := mkNode {
  nodeName : string;
  value : option string;
  attrs : option (list ASTAttribute)
}.

Record Template : Type := mkTemplate {
  template_node : ASTNode;
  content : ASTNode
}.

Record AttributeDatabindingExpression : Type := mkAttributeExpression {
  attribute_base : DatabindingExpression;
  attribute_astNode : ASTNode;
  isCompleteBinding : bool;
  attribute_direction : Direction;
  eventName : option string;
  attribute : ASTAttribute
}.

Record TextNodeDatabindingExpression : Type := mkTextNodeExpression {
  textNode_base : DatabindingExpression;
  textNode_direction : Direction;
  textNode_astNode : ASTNode
}.

Inductive HtmlDatabindingExpression : Type :=
| TextNodeExpression (e : TextNodeDatabindingExpression)
| AttributeExpression (e : AttributeDatabindingExpression).


Record JavascriptDatabindingExpression : Type := mkJavascriptExpression {
  javascript_base : DatabindingExpression;
  javascript_astNode : Node
}.

(** What [parseExpressionInJsStringLiteral] returns. *)
Record JsLiteralResult : Type := mkJsLiteralResult {
  databinding : option JavascriptDatabindingExpression;
  literal_warnings : list Warning.t
}.

(** What the scanner uses of [JavaScriptDocument]. *)
Module JavaScriptDocument.
Record t : Type := make {
  sourceRangeForNode : Node -> option SourceRange
}.
End JavaScriptDocument.

(** [typeof] of the value of a literal. *)
Definition typeofLiteral (v : LiteralValue) : string :=
  match v with
  | LString _ => "string"
  | LNumber _ => "number"
  | LBoolean _ => "boolean"
  | LNull | LRegExp => "object"
  end.

(** What the scanner uses of [ParsedHtmlDocument]. *)
Module ParsedHtmlDocument.
Record t : Type := make {
  sourceRangeForNode : ASTNode -> option SourceRange;
  sourceRangeForAttributeValue :
    ASTNode -> string -> bool -> option SourceRange
}.
End ParsedHtmlDocument.

(** The result of [parseJs]. *)
Inductive ParseResult : Type :=
| success (program : Program)
| failure (warning : Warning.t).

(** The regular expression that [parseExpression] tests against [content]
    (line 493 of the source): a dot followed by a star or by one or more
    digits, anywhere in the text. *)
Fixpoint subPropertyTest (content : string) : bool :=
  match content with
  | EmptyString => false
  | String c rest =>
      ((c =? ".")%char &&
       match rest with
       | String d _ => (d =? "*")%char || isDigit d
       | EmptyString => false
       end)
      || subPropertyTest rest
  end.

(** The regular expression of [extractDataBindingsFromAttr] (line 367 of the
    source): a greedy group of any characters except line terminators, then
    [::], then another such group.  [takeLine s] is the longest prefix of
    [s] such a group can consume. *)
Fixpoint takeLine (s : string) : string :=
  match s with
  | EmptyString => EmptyString
  | String c rest =>
      if isLineTerminator c then EmptyString else String c (takeLine rest)
  end.

(** The greedy first group: split [s] at its last ["::"]. *)
Fixpoint splitAtLastSeparator (s : string) : option (string * string) :=
  match s with
  | EmptyString => None
  | String c rest =>
      match splitAtLastSeparator rest with
      | Some (g1, g2) => Some (String c g1, g2)
      | None =>
          if prefix "::" s
          then Some (EmptyString, substring 2 (length s - 2) s)
          else None
      end
  end.

(** A match that starts at the first character of [s]. *)
Definition matchEventNameHere (s : string) : option (string * string) :=
  splitAtLastSeparator (takeLine s).

(** [expressionText.match(...)] with that regular expression: the leftmost
    start that matches, giving the two groups [match[1]] and [match[2]]. *)
Fixpoint matchEventName (s : string) : option (string * string) :=
  match matchEventNameHere s with
  | Some groups => Some groups
  | None =>
      match s with
      | EmptyString => None
      | String _ rest => matchEventName rest
      end
  end.

(** ** The site extractors *)

(** The two sequences that the extractors push to: the arrays [results] and
    [warnings] of the source (the latter is [warningsOut] below, where
    [warnings] is the field of an expression). *)
Definition Output : Type := (list HtmlDatabindingExpression * list Warning.t)%type.

Section Extractors.

(** [parseJs(content, file, locationOffset, warningCode)] of
    [../javascript/javascript-parser], the expression parser. *)
Variable parseJs : string -> string -> LocationOffset -> string -> ParseResult.

(** [None] is the [undefined] returned for the sub-property paths. *)
Definition parseExpression (content : string)
    (expressionSourceRange : SourceRange) : option ParseResult :=
  let expressionOffset :=
    {| offset_line := line (start expressionSourceRange);
       offset_col := column (start expressionSourceRange) |} in
  let parseResult :=
    parseJs content (file expressionSourceRange) expressionOffset
      "polymer-expression-parse-error" in
  match parseResult with
  | success _ => Some parseResult
  | failure _ =>
      if subPropertyTest content then None else Some parseResult
  end.

(** The body of the loop over [dataBindings] in
    [extractDataBindingsFromTextNode]. *)
Definition textNodeBindingStep (node : ASTNode)
    (nodeSourceRange : SourceRange) (newlineIndexes : list nat)
    (out : Output) (dataBinding : RawDatabinding) : Output :=
  let '(results, warningsOut) := out in
  let startOfTextNodeOffset :=
    {| offset_line := line (start nodeSourceRange);
       offset_col := column (start nodeSourceRange) |} in
  let sourceRangeWithinTextNode :=
    indexesToSourceRange
      (Z.of_nat (startIndex dataBinding)) (Z.of_nat (endIndex dataBinding))
      (file nodeSourceRange) (map Z.of_nat newlineIndexes) in
  let sourceRange :=
    correctSourceRange sourceRangeWithinTextNode startOfTextNodeOffset in
  match parseExpression (rawExpressionText dataBinding) sourceRange with
  | None => out
  | Some (failure warning) => (results, warningsOut ++ [warning])
  | Some (success program) =>
      let expression :=
        {| textNode_base :=
             newDatabindingExpression sourceRange
               (rawExpressionText dataBinding) program;
           textNode_direction := rawDirection dataBinding;
           textNode_astNode := node |} in
      (results ++ [TextNodeExpression expression],
       warningsOut ++ warnings (textNode_base expression))
  end.

Definition extractDataBindingsFromTextNode
    (document : ParsedHtmlDocument.t) (node : ASTNode) (out : Output)
    : Output :=
  let text := match value node with Some v => v | None => "" end in
  let dataBindings := findDatabindingInString text in
  match dataBindings with
  | [] => out
  | _ =>
      let newlineIndexes := findNewlineIndexes text in
      match ParsedHtmlDocument.sourceRangeForNode document node with
      | None => out
      | Some nodeSourceRange =>
          fold_left (textNodeBindingStep node nodeSourceRange newlineIndexes)
            dataBindings out
      end
  end.

(** The body of the loop over [dataBindings] in
    [extractDataBindingsFromAttr]. *)
Definition attrBindingStep (node : ASTNode) (attr : ASTAttribute)
    (attributeValueRange : SourceRange) (newlineIndexes : list nat)
    (out : Output) (dataBinding : RawDatabinding) : Output :=
  let '(results, warningsOut) := out in
  let attributeOffset :=
    {| offset_line := line (start attributeValueRange);
       offset_col := column (start attributeValueRange) |} in
  let isFullAttributeBinding :=
    (startIndex dataBinding =? 2)%nat &&
    (endIndex dataBinding + 2 =? length (attr_value attr))%nat in
  let '(expressionText, eventName) :=
    match rawDirection dataBinding with
    | Mustache =>
        match matchEventName (rawExpressionText dataBinding) with
        | Some (group1, group2) => (group1, Some group2)
        | None => (rawExpressionText dataBinding, None)
        end
    | Bracket => (rawExpressionText dataBinding, None)
    end in
  let sourceRangeWithinAttribute :=
    indexesToSourceRange
      (Z.of_nat (startIndex dataBinding)) (Z.of_nat (endIndex dataBinding))
      (file attributeValueRange) (map Z.of_nat newlineIndexes) in
  let sourceRange :=
    correctSourceRange sourceRangeWithinAttribute attributeOffset in
  match parseExpression expressionText sourceRange with
  | None => out
  | Some (failure warning) => (results, warningsOut ++ [warning])
  | Some (success program) =>
      let expression :=
        {| attribute_base :=
             newDatabindingExpression sourceRange expressionText program;
           attribute_astNode := node;
           isCompleteBinding := isFullAttributeBinding;
           attribute_direction := rawDirection dataBinding;
           eventName := eventName;
           attribute := attr |} in
      (results ++ [AttributeExpression expression],
       warningsOut ++ warnings (attribute_base expression))
  end.

Definition extractDataBindingsFromAttr
    (document : ParsedHtmlDocument.t) (node : ASTNode) (attr : ASTAttribute)
    (out : Output) : Output :=
  if attr_value attr =? "" then out
  else
    let dataBindings := findDatabindingInString (attr_value attr) in
    match ParsedHtmlDocument.sourceRangeForAttributeValue document node
            (attr_name attr) true with
    | None => out
    | Some attributeValueRange =>
        let newlineIndexes := findNewlineIndexes (attr_value attr) in
        fold_left
          (attrBindingStep node attr attributeValueRange newlineIndexes)
          dataBindings out
    end.

(** [None] is the [TypeError] thrown when the document has no range for a
    string literal and the source reads [sourceRangeForLiteral.file]. *)
Definition parseExpressionInJsStringLiteral
    (document : JavaScriptDocument.t) (stringLiteral : Node)
    : option JsLiteralResult :=
  let sourceRangeForLiteral :=
    JavaScriptDocument.sourceRangeForNode document stringLiteral in
  match stringLiteral with
  | Literal (LString expressionText) _ =>
      match sourceRangeForLiteral with
      | None => None
      | Some literalRange =>
          let sourceRange :=
            {| file := file literalRange;
               start := {| line := line (start literalRange);
                           column := column (start literalRange) + 1 |};
               end_ := {| line := line (end_ literalRange);
                          column := column (end_ literalRange) - 1 |} |} in
          match parseExpression expressionText sourceRange with
          | Some (failure warning) => Some (mkJsLiteralResult None [warning])
          | Some (success program) =>
              Some (mkJsLiteralResult
                      (Some
                         (mkJavascriptExpression
                            (newDatabindingExpression sourceRange
                               expressionText program)
                            stringLiteral))
                      [])
          | None => Some (mkJsLiteralResult None [])
          end
      end
  | Literal v _ =>
      Some (mkJsLiteralResult None
              [ {| Warning.code := "invalid-polymer-expression";
                   Warning.message :=
                     "Expected a string, got a " ++ typeofLiteral v ++ ".";
                   Warning.sourceRange := sourceRangeForLiteral;
                   Warning.severity := WARNING |} ])
  | _ =>
      Some (mkJsLiteralResult None
              [ {| Warning.code := "unanalyzable-polymer-expression";
                   Warning.message :=
                     "Can only analyze databinding expressions in string literals.";
                   Warning.sourceRange := sourceRangeForLiteral;
                   Warning.severity := INFO |} ])
  end.

(** [dom5.nodeWalkAll(root, ...)] with a predicate that is always false:
    the nodes under [root], in the order the callback sees them. *)
Variable nodeWalkAll : ASTNode -> list ASTNode.

(** [dom5.isTextNode] *)
Definition isTextNode (node : ASTNode) : bool := nodeName node =? "#text".

(** The callback given to [dom5.nodeWalkAll]. *)
Definition visitNode (document : ParsedHtmlDocument.t) (out : Output)
    (node : ASTNode) : Output :=
  let out1 :=
    match value node with
    | Some v =>
        if isTextNode node && negb (v =? "")
        then extractDataBindingsFromTextNode document node out
        else out
    | None => out
    end in
  match attrs node with
  | Some attributes =>
      fold_left
        (fun o attr => extractDataBindingsFromAttr document node attr o)
        attributes out1
  | None => out1
  end.

Definition extractDataBindingsFromTemplates
    (document : ParsedHtmlDocument.t) (templates : list Template) : Output :=
  fold_left
    (fun out template =>
       fold_left (visitNode document) (nodeWalkAll (content template)) out)
    templates ([], []).

End Extractors.

(** ** Scanning one template *)

Section EntryPoints.

Variable parseJs : string -> string -> LocationOffset -> string -> ParseResult.
Variable nodeWalkAll : ASTNode -> list ASTNode.

(** [getAllDataBindingTemplates], the template locator: a [dom5] query that
    is not embedded. *)
Variable getAllDataBindingTemplates : ASTNode -> list Template.

Definition scanDatabindingTemplateForExpressions
    (document : ParsedHtmlDocument.t) (template : Template) : Output :=
  extractDataBindingsFromTemplates parseJs nodeWalkAll document
    ([template] ++ getAllDataBindingTemplates (content template)).

End EntryPoints.

(** ** Collaborators for the closed examples *)

(** An expression parser given by a finite table of texts and their ESTree
    programs; every other text is a syntax error, reported at the offset. *)
Definition tableParser (table : list (string * Program))
    (content file : string) (locationOffset : LocationOffset)
    (warningCode : string) : ParseResult :=
  match find (fun entry => fst entry =? content) table with
  | Some (_, program) => success program
  | None =>
      let here := {| line := offset_line locationOffset;
                     column := offset_col locationOffset |} in
      failure {| Warning.code := warningCode;
                 Warning.message := "Unexpected token";
                 Warning.sourceRange := Some (mkRange file here here);
                 Warning.severity := WARNING |}
  end.

(** A location on the first line of an expression, columns [c1] to [c2]. *)
Definition onLine1 (c1 c2 : Z) : option SourceLocation :=
  Some (mkLoc (mkPosition 1 c1) (mkPosition 1 c2)).

(** The program of a text that is a single identifier. *)
Definition identifierProgram (n : string) : Program :=
  let l := onLine1 0 (Z.of_nat (length n)) in
  mkProgram [ExpressionStatement (Identifier n l) l] l.

(** The program of ["foo(bar, baz.zod)"], with the locations of its eight
    nodes left open. *)
Definition fooBarBazZod (l : nat -> option SourceLocation) : Program :=
  mkProgram
    [ExpressionStatement
       (CallExpression (Identifier "foo" (l 3))
          [Identifier "bar" (l 4);
           MemberExpression (Identifier "baz" (l 6)) (Identifier "zod" (l 7))
             false (l 5)]
          (l 2))
       (l 1)]
    (l 0).

(** The program of ["a && b"]. *)
Definition aAndB : Program :=
  mkProgram
    [ExpressionStatement
       (OtherExpression LogicalExpression
          [Identifier "a" (onLine1 0 1); Identifier "b" (onLine1 5 6)]
          (onLine1 0 6))
       (onLine1 0 6)]
    (onLine1 0 6).

Definition sampleTable : list (string * Program) :=
  [ ("foo", identifierProgram "foo");
    ("bar", identifierProgram "bar");
    ("val", identifierProgram "val");
    ("a && b", aAndB) ].

(** A document in which every node and every attribute value starts at
    [line], [col] of [file.html]. *)
Definition documentAt (line col : Z) : ParsedHtmlDocument.t :=
  let range := mkRange "file.html" (mkPosition line col)
                 (mkPosition (line + 1) 0) in
  ParsedHtmlDocument.make (fun _ => Some range) (fun _ _ _ => Some range).

(** A document that has no source range for anything. *)
Definition documentWithoutRanges : ParsedHtmlDocument.t :=
  ParsedHtmlDocument.make (fun _ => None) (fun _ _ _ => None).

Definition textNode (v : string) : ASTNode := mkNode "#text" (Some v) None.

Definition element (tag : string) (attributes : list ASTAttribute) : ASTNode :=
  mkNode tag None (Some attributes).

(** The two-line text: [line1], a newline, then the binding [foo]. *)
Definition twoLineText : string := "line1" ++ newline ++ "{{foo}}".

(** An attribute value whose two-way binding is written on two lines:
    [compute(a,], a newline, [ b)::change]. *)
Definition twoLineBindingText : string :=
  "compute(a," ++ newline ++ " b)::change".

Definition twoLineBindingValue : string := "{{" ++ twoLineBindingText ++ "}}".

(** The program of the expression in [twoLineBindingText] before its event
    name. *)
Definition computeAB : Program :=
  mkProgram
    [ExpressionStatement
       (CallExpression (Identifier "compute" None)
          [Identifier "a" None; Identifier "b" None] None)
       None]
    None.

(** A text with a separator on each of its two lines: [a::b], a newline,
    [c::d]. *)
Definition twoSeparatorLines : string := "a::b" ++ newline ++ "c::d".

(** ** What one binding contributes *)

(** The absolute range of a raw binding found in a string that starts at
    [start base]: the [sourceRange] computed at the top of both loop bodies. *)
Definition bindingSourceRange (base : SourceRange) (newlineIndexes : list nat)
    (b : RawDatabinding) : SourceRange :=
  correctSourceRange
    (indexesToSourceRange (Z.of_nat (startIndex b)) (Z.of_nat (endIndex b))
       (file base) (map Z.of_nat newlineIndexes))
    {| offset_line := line (start base); offset_col := column (start base) |}.

(** The expression text and the event name that the attribute loop derives
    from a raw binding. *)
Definition splitEventName (b : RawDatabinding) : string * option string :=
  match rawDirection b with
  | Mustache =>
      match matchEventName (rawExpressionText b) with
      | Some (group1, group2) => (group1, Some group2)
      | None => (rawExpressionText b, None)
      end
  | Bracket => (rawExpressionText b, None)
  end.

(** [f] only ever appends to the two output sequences. *)
Definition appends {A : Type} (f : Output -> A -> Output) : Prop :=
  forall out a,
    f out a = (fst out ++ fst (f ([], []) a), snd out ++ snd (f ([], []) a)).

(** ** The vocabulary of the statements *)



(** The binding that one turn pushes for an opener at [idx] whose closer is
    at [endIdx]. *)
Definition emitted (str : string) (idx : nat) (matchedOpeners : string)
    (endIdx : nat) : RawDatabinding :=
  {| rawExpressionText := slice str (idx + 2) endIdx;
     startIndex := idx + 2;
     endIndex := endIdx;
     rawDirection := directionOf matchedOpeners |}.

(** [LoopHead str lastIndex expressions]: scanning [str] reaches the head of
    the loop with [openers.lastIndex = lastIndex] and [expressions] pushed. *)
Inductive LoopHead (str : string) : nat -> list RawDatabinding -> Prop :=
| head_start : LoopHead str 0 []
| head_next lastIndex expressions idx matchedOpeners endIdx :
    LoopHead str lastIndex expressions ->
    openers_exec str lastIndex = Some (idx, matchedOpeners) ->
    indexOf str (closersOf matchedOpeners) (idx + 2) = Some endIdx ->
    LoopHead str (endIdx + 2)
      (expressions ++ [emitted str idx matchedOpeners endIdx]).

(** The opener of a direction and its closer. *)
Definition openerText (d : Direction) : string :=
  match d with Mustache => "{{" | Bracket => "[[" end.

Definition closerText (d : Direction) : string :=
  match d with Mustache => "}}" | Bracket => "]]" end.

(** A raw binding sits between an opener and the closer of the same kind. *)
Definition delimited (str : string) (b : RawDatabinding) : Prop :=
  2 <= startIndex b <= endIndex b /\
  occursAt (openerText (rawDirection b)) str (startIndex b - 2) /\
  occursAt (closerText (rawDirection b)) str (endIndex b) /\
  rawExpressionText b = slice str (startIndex b) (endIndex b).

(** [b1] is wholly to the left of [b2]: the closer of [b1] ends before the
    opener of [b2] starts. *)
Definition leftOf (b1 b2 : RawDatabinding) : Prop :=
  endIndex b1 + 4 <= startIndex b2.

(** [r] is [this] with more properties and warnings pushed, and nothing else
    changed. *)
Definition extends (this r : DatabindingExpression) : Prop :=
  sourceRange r = sourceRange this /\
  expressionText r = expressionText this /\
  _expressionAst r = _expressionAst this /\
  locationOffset r = locationOffset this /\
  (exists ps, properties r = properties this ++ ps) /\
  (exists ws, warnings r = warnings this ++ ws).

(** The identifiers at the root of a member-access or call chain: the
    relation follows the object of a member access, never its property. *)
Inductive RootIdentifier : Node -> string -> Prop :=
| root_identifier n l : RootIdentifier (Identifier n l) n
| root_object o p c l n :
    RootIdentifier o n -> RootIdentifier (MemberExpression o p c l) n
| root_callee f args l n :
    RootIdentifier f n -> RootIdentifier (CallExpression f args l) n
| root_argument f args l a n :
    In a args -> RootIdentifier a n ->
    RootIdentifier (CallExpression f args l) n.

(** The text of a node, as [node.value || ''] reads it. *)
Definition textOf (node : ASTNode) : string :=
  match value node with Some v => v | None => "" end.

(** [parseJs] accepts [text] as [program], wherever the text stands. *)
Definition parsesTo
    (parseJs : string -> string -> LocationOffset -> string -> ParseResult)
    (text : string) (program : Program) : Prop :=
  forall file offset code, parseJs text file offset code = success program.

(** [parseJs] rejects [content], wherever the text stands. *)
Definition failsToParse
    (parseJs : string -> string -> LocationOffset -> string -> ParseResult)
    (content : string) : Prop :=
  forall file offset code, exists warning,
    parseJs content file offset code = failure warning.

(** [\d+] matched against a whole string. *)
Fixpoint allDigits (s : string) : bool :=
  match s with
  | EmptyString => true
  | String c rest => isDigit c && allDigits rest
  end.

(** [content] ends with a path segment [.*] or [.<digits>]. *)
Definition TrailingSubProperty (content : string) : Prop :=
  exists pre,
    content = (pre ++ ".*")%string \/
    exists digits,
      digits <> "" /\ allDigits digits = true /\
      content = (pre ++ "." ++ digits)%string.

(** An opener of either kind occurs in [str] at index [j]. *)
Definition opensAt (str : string) (j : nat) : Prop :=
  occursAt "{{" str j \/ occursAt "[[" str j.

(** No opener occurs in [str] from index [from] up to the opener of the
    first binding of the list, nor between the closer of a binding and the
    opener of the next one. *)
Fixpoint noOpenerSkipped (str : string) (from : nat)
    (bindings : list RawDatabinding) : Prop :=
  match bindings with
  | [] => True
  | b :: rest =>
      (forall j, from <= j -> j + 2 < startIndex b -> ~ opensAt str j) /\
      noOpenerSkipped str (endIndex b + 2) rest
  end.

(** Where the opener search resumes after the bindings of the list, having
    started at [from]. *)
Fixpoint resumeIndex (from : nat) (bindings : list RawDatabinding) : nat :=
  match bindings with
  | [] => from
  | b :: rest => resumeIndex (endIndex b + 2) rest
  end.

(** The line feed character. *)
Definition lineFeed : ascii := "010"%char.

(** [p] is the line and column of index [i] in [str]: the line is the number
    of line feeds before [i], and the column is the distance from [i] back
    to the character after the last line feed before [i], or to the start
    of the string when there is none. *)
Definition positionOf (str : string) (i : nat) (p : SourcePosition) : Prop :=
  (exists before,
      ForallOrdPairs lt before /\
      (forall k, In k before <-> k < i /\ get k str = Some lineFeed) /\
      line p = Z.of_nat (List.length before)) /\
  (exists c,
      column p = Z.of_nat c /\ c <= i /\
      (forall k, i - c <= k -> k < i -> get k str <> Some lineFeed) /\
      (c < i -> get (i - c - 1) str = Some lineFeed)).

(** [this] with nothing pushed yet. *)
Definition cleared (this : DatabindingExpression) : DatabindingExpression :=
  mkExpression (sourceRange this) [] (expressionText this)
    (_expressionAst this) (locationOffset this) [].

(** What validating [expression] records and reports on its own. *)
Definition recorded (this : DatabindingExpression) (expression : Node)
    (callAllowed : bool) : list Property :=
  properties
    (_extractAndValidateSubExpression expression callAllowed (cleared this)).

Definition reported (this : DatabindingExpression) (expression : Node)
    (callAllowed : bool) : list Warning.t :=
  warnings
    (_extractAndValidateSubExpression expression callAllowed (cleared this)).

(** [expression] appends to [this] what it records and reports on its
    own. *)
Definition framed (expression : Node) : Prop :=
  forall callAllowed this,
    properties (_extractAndValidateSubExpression expression callAllowed this) =
      properties this ++ recorded this expression callAllowed /\
    warnings (_extractAndValidateSubExpression expression callAllowed this) =
      warnings this ++ reported this expression callAllowed.

(** Literals, identifiers and member accesses on them: what is accepted
    where a call is not allowed. *)
Inductive PathExpression : Node -> Prop :=
| path_literal v l : PathExpression (Literal v l)
| path_identifier n l : PathExpression (Identifier n l)
| path_member o p c l :
    PathExpression o -> PathExpression (MemberExpression o p c l).

(** A path, or one call of a path on paths: what is accepted where a call is
    allowed. *)
Inductive BindingExpression : Node -> Prop :=
| binding_path e : PathExpression e -> BindingExpression e
| binding_call f args l :
    PathExpression f -> Forall PathExpression args ->
    BindingExpression (CallExpression f args l).

(** A program of one expression statement that holds a binding expression,
    possibly under one logical not. *)
Definition SupportedProgram (program : Program) : Prop :=
  exists e l,
    body program = [ExpressionStatement e l] /\
    (BindingExpression e \/
     exists a l', e = UnaryExpression "!" a l' /\ BindingExpression a).

(** The sub-property pattern occurs in [content]: a dot at some index,
    followed by a star or by a digit. *)
Definition HoldsSubProperty (content : string) : Prop :=
  exists i c,
    get i content = Some "."%char /\
    get (S i) content = Some c /\
    (c = "*"%char \/ isDigit c = true).

(** * Properties *)

(** ** The loop of the delimiter scanner *)

(** The three ways one turn of the loop can go. *)
Section LoopEquations.

Variable str : string.

Lemma loop_no_opener lastIndex expressions :
  openers_exec str lastIndex = None ->
  findDatabindingLoop str lastIndex expressions = expressions.
Proof.
intros H. rewrite findDatabindingLoop_equation_1.
destruct (inspect (openers_exec str lastIndex)) as [[[i m]|] Ho];
  simp findDatabindingLoop; [congruence | reflexivity].
Qed.

Lemma loop_break lastIndex expressions idx matchedOpeners :
  openers_exec str lastIndex = Some (idx, matchedOpeners) ->
  indexOf str (closersOf matchedOpeners) (idx + 2) = None ->
  findDatabindingLoop str lastIndex expressions = expressions.
Proof.
intros H Hc. rewrite findDatabindingLoop_equation_1.
destruct (inspect (openers_exec str lastIndex)) as [[[i m]|] Ho];
  simp findDatabindingLoop; [|reflexivity].
assert (i = idx /\ m = matchedOpeners) as [-> ->]
  by (split; congruence).
destruct (inspect (indexOf str (closersOf matchedOpeners) (idx + 2)))
  as [[j|] Hj]; simp findDatabindingLoop; [congruence | reflexivity].
Qed.

Lemma loop_step lastIndex expressions idx matchedOpeners endIdx :
  openers_exec str lastIndex = Some (idx, matchedOpeners) ->
  indexOf str (closersOf matchedOpeners) (idx + 2) = Some endIdx ->
  findDatabindingLoop str lastIndex expressions =
  findDatabindingLoop str (endIdx + 2)
    (expressions ++
     [ {| rawExpressionText := slice str (idx + 2) endIdx;
          startIndex := idx + 2;
          endIndex := endIdx;
          rawDirection := directionOf matchedOpeners |} ]).
Proof.
intros H Hc. rewrite findDatabindingLoop_equation_1.
destruct (inspect (openers_exec str lastIndex)) as [[[i m]|] Ho];
  simp findDatabindingLoop; [|congruence].
assert (i = idx /\ m = matchedOpeners) as [-> ->]
  by (split; congruence).
destruct (inspect (indexOf str (closersOf matchedOpeners) (idx + 2)))
  as [[j|] Hj]; simp findDatabindingLoop; [|congruence].
assert (j = endIdx) as -> by congruence.
reflexivity.
Qed.

End LoopEquations.

(** ** The delimiter scanner: states at the head of its loop *)

Section ScannerFacts.

Variable str : string.

Lemma loop_head_result lastIndex expressions :
  LoopHead str lastIndex expressions ->
  findDatabindingInString str = findDatabindingLoop str lastIndex expressions.
Proof.
induction 1 as [|li e idx m j Hhead IH Hopen Hclose]; [reflexivity|].
rewrite IH. now apply loop_step.
Qed.

Lemma openers_exec_occurs lastIndex idx m :
  openers_exec str lastIndex = Some (idx, m) ->
  m = openerText (directionOf m) /\ occursAt m str idx.
Proof.
unfold openers_exec, occursAt.
destruct (index lastIndex "{{" str) as [i|] eqn:Hi;
  destruct (index lastIndex "[[" str) as [j|] eqn:Hj;
  try discriminate;
  try (apply index_correct1 in Hi); try (apply index_correct1 in Hj).
- destruct (i <? j)%nat; intros [= <- <-]; auto.
- intros [= <- <-]; auto.
- intros [= <- <-]; auto.
Qed.

Lemma closersOf_closerText m : closersOf m = closerText (directionOf m).
Proof. unfold closersOf, directionOf. now destruct (m =? "{{"). Qed.

Lemma indexOf_none search position :
  search <> "" ->
  (forall j, position <= j -> ~ occursAt search str j) ->
  indexOf str search position = None.
Proof.
intros Hne Hno. unfold indexOf.
destruct (index position search str) as [j|] eqn:Hj; [|reflexivity].
exfalso. apply (Hno j).
- now apply index_bounds in Hj.
- now apply index_correct1 in Hj.
Qed.

Lemma indexOf_none_inv search position :
  search <> "" ->
  indexOf str search position = None ->
  forall j, position <= j -> ~ occursAt search str j.
Proof.
intros Hne Hnone j Hj. unfold occursAt.
now apply (index_correct3 position j search str).
Qed.

(** Every binding pushed so far ends before [lastIndex], and sits between
    its delimiters. *)
Lemma loop_head_invariant lastIndex expressions :
  LoopHead str lastIndex expressions ->
  Forall (fun b => endIndex b + 2 <= lastIndex /\ delimited str b) expressions.
Proof.
induction 1 as [|li e idx m j Hhead IH Hopen Hclose]; [constructor|].
pose proof (openers_exec_bounds _ _ _ _ Hopen) as [Hli Hlen].
pose proof (openers_exec_occurs _ _ _ Hopen) as [Hm Hocc].
pose proof (index_bounds _ _ _ _ Hclose) as [Hj _].
apply Forall_app; split.
- eapply Forall_impl; [|exact IH]. cbn beta. intros b [Hb Hd]. split; [lia|exact Hd].
- constructor; [|constructor]. split; [simpl; lia|].
  unfold delimited; simpl. repeat split; try lia.
  + replace (idx + 2 - 2) with idx by lia. now rewrite <- Hm.
  + rewrite <- closersOf_closerText. unfold occursAt.
    now apply index_correct1 in Hclose.
Qed.

(** The loop always ends at a head state where no opener is left or the
    next opener has no closer, and returns what was pushed by then. *)
Lemma loop_runs_to_end :
  forall n lastIndex expressions,
    length str - lastIndex <= n ->
    LoopHead str lastIndex expressions ->
    exists lastIndex' expressions',
      LoopHead str lastIndex' expressions' /\
      findDatabindingLoop str lastIndex expressions = expressions' /\
      (openers_exec str lastIndex' = None \/
       exists idx m,
         openers_exec str lastIndex' = Some (idx, m) /\
         indexOf str (closersOf m) (idx + 2) = None).
Proof.
induction n as [|n IH]; intros li e Hn Hhead.
- destruct (openers_exec str li) as [[idx m]|] eqn:Hopen.
  + apply openers_exec_bounds in Hopen. lia.
  + exists li, e. repeat split; auto using loop_no_opener.
- destruct (openers_exec str li) as [[idx m]|] eqn:Hopen.
  + destruct (indexOf str (closersOf m) (idx + 2)) as [j|] eqn:Hclose.
    * rewrite (loop_step _ _ _ _ _ _ Hopen Hclose).
      apply IH.
      -- apply openers_exec_bounds in Hopen.
         apply index_bounds in Hclose. lia.
      -- exact (head_next _ _ _ _ _ _ Hhead Hopen Hclose).
    * exists li, e. repeat split; eauto using loop_break.
  + exists li, e. repeat split; auto using loop_no_opener.
Qed.

Lemma scan_ends :
  exists lastIndex expressions,
    LoopHead str lastIndex expressions /\
    findDatabindingInString str = expressions.
Proof.
destruct (loop_runs_to_end (length str) 0 []) as (li & e & H & Heq & _).
- lia.
- constructor.
- now exists li, e.
Qed.

Lemma scan_delimited :
  Forall (delimited str) (findDatabindingInString str).
Proof.
destruct scan_ends as (li & e & Hhead & ->).
apply loop_head_invariant in Hhead.
eapply Forall_impl; [|exact Hhead]. now intros b [_ Hd].
Qed.

End ScannerFacts.

Section ScannerOrder.

Variable str : string.

Lemma ordered_snoc {A} (R : A -> A -> Prop) (l : list A) (x : A) :
  ForallOrdPairs R l -> Forall (fun y => R y x) l ->
  ForallOrdPairs R (l ++ [x]).
Proof.
induction 1 as [|a l Ha Hl IH]; intros Hx; simpl.
- repeat constructor.
- inversion Hx; subst. constructor; [|auto].
  apply Forall_app; split; [assumption | now repeat constructor].
Qed.

Lemma loop_head_ordered lastIndex expressions :
  LoopHead str lastIndex expressions -> ForallOrdPairs leftOf expressions.
Proof.
induction 1 as [|li e idx m j Hhead IH Hopen Hclose]; [constructor|].
apply ordered_snoc; [assumption|].
apply loop_head_invariant in Hhead.
apply openers_exec_bounds in Hopen.
eapply Forall_impl; [|exact Hhead]. cbn beta.
intros b [Hb _]. unfold leftOf; simpl. lia.
Qed.

Lemma scan_ordered : ForallOrdPairs leftOf (findDatabindingInString str).
Proof.
destruct (scan_ends str) as (li & e & Hhead & ->).
now apply loop_head_ordered in Hhead.
Qed.

End ScannerOrder.

(** C3: when the scanner, at the head of its loop, finds an opener at [idx]
    and the matching closer occurs nowhere from [idx + 2] on, the scan is
    over: the result is exactly what had been pushed before, every binding
    of which ends before that opener; no binding is emitted for the opener
    and none after it.  In particular ["{{unterminated"] gives no binding. *)
Theorem unterminated_opener_aborts_scan :
  (forall str lastIndex expressions idx matchedOpeners,
      LoopHead str lastIndex expressions ->
      openers_exec str lastIndex = Some (idx, matchedOpeners) ->
      (forall j, idx + 2 <= j -> ~ occursAt (closersOf matchedOpeners) str j) ->
      findDatabindingInString str = expressions /\
      Forall (fun b => endIndex b + 2 <= idx) expressions) /\
  findDatabindingInString "{{unterminated" = [].
Proof.
  split; [|reflexivity].
  intros str li e idx m Hhead Hopen Hno.
  split.
  - rewrite (loop_head_result _ _ _ Hhead).
    apply (loop_break _ _ _ _ _ Hopen).
    apply indexOf_none; [|assumption].
    rewrite closersOf_closerText. now destruct (directionOf m).
  - apply loop_head_invariant in Hhead.
    apply openers_exec_bounds in Hopen.
    eapply Forall_impl; [|exact Hhead]. cbn beta. intros b [Hb _]. lia.
Qed.

Lemma unterminated_opener_aborts_scan_witness :
  findDatabindingInString "a {{b}} [[c" = [mkRawDatabinding "b" 4 5 Mustache] /\
  Forall (fun b => endIndex b + 2 <= 8) [mkRawDatabinding "b" 4 5 Mustache].
Proof.
  apply (proj1 unterminated_opener_aborts_scan "a {{b}} [[c" 7
           [mkRawDatabinding "b" 4 5 Mustache] 8 "[[").
  - exact (head_next "a {{b}} [[c" 0 [] 2 "{{" 5
             (head_start _) eq_refl eq_refl).
  - reflexivity.
  - apply indexOf_none_inv; [discriminate | reflexivity].
Defined.

(** C8: scanning ["a {{foo}} b [[bar]] c"] gives the mustache binding [foo]
    at indexes 4 to 7, then the bracket binding [bar] at indexes 14 to 17.
    In general, a turn of the loop that finds an opener at [idx] and its
    closer at [endIdx] pushes the binding with [startIndex = idx + 2] and
    [endIndex = endIdx], and the search goes on from [endIdx + 2]; every
    binding of a result starts just after an opener, ends at the closer of
    the same kind and holds the text in between, and the bindings come in
    left-to-right order. *)
Theorem scan_emits_bindings_in_order :
  findDatabindingInString "a {{foo}} b [[bar]] c" =
    [ mkRawDatabinding "foo" 4 7 Mustache;
      mkRawDatabinding "bar" 14 17 Bracket ] /\
  (forall str lastIndex expressions idx matchedOpeners endIdx,
      LoopHead str lastIndex expressions ->
      openers_exec str lastIndex = Some (idx, matchedOpeners) ->
      indexOf str (closersOf matchedOpeners) (idx + 2) = Some endIdx ->
      let pushed :=
        {| rawExpressionText := slice str (idx + 2) endIdx;
           startIndex := idx + 2;
           endIndex := endIdx;
           rawDirection := directionOf matchedOpeners |} in
      LoopHead str (endIdx + 2) (expressions ++ [pushed]) /\
      findDatabindingInString str =
        findDatabindingLoop str (endIdx + 2) (expressions ++ [pushed])) /\
  (forall str,
      Forall (delimited str) (findDatabindingInString str) /\
      ForallOrdPairs leftOf (findDatabindingInString str)).
Proof.
  split; [reflexivity|]. split.
  - intros str li e idx m j Hhead Hopen Hclose pushed.
    assert (LoopHead str (j + 2) (e ++ [pushed])) as Hnext
      by exact (head_next _ _ _ _ _ _ Hhead Hopen Hclose).
    split; [exact Hnext | exact (loop_head_result _ _ _ Hnext)].
  - intros str. split; [apply scan_delimited | apply scan_ordered].
Qed.

Lemma scan_emits_bindings_in_order_witness :
  LoopHead "a {{foo}} b [[bar]] c" 9 ([] ++ [mkRawDatabinding "foo" 4 7 Mustache]) /\
  findDatabindingInString "a {{foo}} b [[bar]] c" =
    findDatabindingLoop "a {{foo}} b [[bar]] c" 9
      ([] ++ [mkRawDatabinding "foo" 4 7 Mustache]).
Proof.
  apply (proj1 (proj2 scan_emits_bindings_in_order)
           "a {{foo}} b [[bar]] c" 0 [] 2 "{{" 7).
  - apply head_start.
  - reflexivity.
  - reflexivity.
Defined.

(** ** The extractors only append, binding by binding *)

Section Appending.

Context {A : Type}.

Lemma fold_left_appends (f : Output -> A -> Output) :
  appends f ->
  forall l out,
    fold_left f l out =
    (fst out ++ flat_map (fun a => fst (f ([], []) a)) l,
     snd out ++ flat_map (fun a => snd (f ([], []) a)) l).
Proof.
intros Hf l. induction l as [|a l IH]; intros [rs ws]; simpl.
- now rewrite !app_nil_r.
- rewrite IH, (Hf (rs, ws) a). simpl. now rewrite !app_assoc.
Qed.

Lemma appends_fold_left {B : Type} (f : Output -> A -> Output)
    (items : B -> list A) :
  appends f -> appends (fun out b => fold_left f (items b) out).
Proof.
intros Hf out b.
rewrite (fold_left_appends f Hf (items b) out).
now rewrite (fold_left_appends f Hf (items b) ([], [])).
Qed.

End Appending.

Section Contributions.

Variable parseJs : string -> string -> LocationOffset -> string -> ParseResult.

Lemma textNodeBindingStep_unfold node range newlineIndexes out b :
  textNodeBindingStep parseJs node range newlineIndexes out b =
  match parseExpression parseJs (rawExpressionText b)
          (bindingSourceRange range newlineIndexes b) with
  | None => out
  | Some (failure warning) => (fst out, snd out ++ [warning])
  | Some (success program) =>
      let base :=
        newDatabindingExpression (bindingSourceRange range newlineIndexes b)
          (rawExpressionText b) program in
      (fst out ++
         [TextNodeExpression (mkTextNodeExpression base (rawDirection b) node)],
       snd out ++ warnings base)
  end.
Proof. destruct out as [rs ws]. reflexivity. Qed.

Lemma attrBindingStep_unfold node attr range newlineIndexes out b :
  attrBindingStep parseJs node attr range newlineIndexes out b =
  match parseExpression parseJs (fst (splitEventName b))
          (bindingSourceRange range newlineIndexes b) with
  | None => out
  | Some (failure warning) => (fst out, snd out ++ [warning])
  | Some (success program) =>
      let base :=
        newDatabindingExpression (bindingSourceRange range newlineIndexes b)
          (fst (splitEventName b)) program in
      (fst out ++
         [AttributeExpression
            (mkAttributeExpression base node
               ((startIndex b =? 2)%nat &&
                (endIndex b + 2 =? length (attr_value attr))%nat)
               (rawDirection b) (snd (splitEventName b)) attr)],
       snd out ++ warnings base)
  end.
Proof.
destruct out as [rs ws]. unfold attrBindingStep, splitEventName.
destruct (rawDirection b); [|reflexivity].
now destruct (matchEventName (rawExpressionText b)) as [[g1 g2]|].
Qed.

Lemma textNodeBindingStep_appends node range newlineIndexes :
  appends (textNodeBindingStep parseJs node range newlineIndexes).
Proof.
intros [rs ws] b. rewrite !textNodeBindingStep_unfold.
destruct (parseExpression _ _ _) as [[program|warning]|]; simpl;
now rewrite ?app_nil_r.
Qed.

Lemma attrBindingStep_appends node attr range newlineIndexes :
  appends (attrBindingStep parseJs node attr range newlineIndexes).
Proof.
intros [rs ws] b. rewrite !attrBindingStep_unfold.
destruct (parseExpression _ _ _) as [[program|warning]|]; simpl;
now rewrite ?app_nil_r.
Qed.

Lemma extractDataBindingsFromTextNode_appends document :
  appends (fun out node => extractDataBindingsFromTextNode parseJs document node out).
Proof.
intros [rs ws] node. unfold extractDataBindingsFromTextNode.
destruct (findDatabindingInString _) as [|b bs]; [now rewrite !app_nil_r|].
destruct (ParsedHtmlDocument.sourceRangeForNode document node) as [range|];
  [|now rewrite !app_nil_r].
apply (appends_fold_left _ (fun _ : unit => b :: bs)
         (textNodeBindingStep_appends _ _ _) (rs, ws) tt).
Qed.

Lemma extractDataBindingsFromAttr_appends document node :
  appends (fun out attr => extractDataBindingsFromAttr parseJs document node attr out).
Proof.
intros [rs ws] attr. unfold extractDataBindingsFromAttr.
destruct (attr_value attr =? ""); [now rewrite !app_nil_r|].
destruct (ParsedHtmlDocument.sourceRangeForAttributeValue _ _ _ _) as [range|];
  [|now rewrite !app_nil_r].
apply (appends_fold_left _
         (fun _ : unit => findDatabindingInString (attr_value attr))
         (attrBindingStep_appends _ _ _ _) (rs, ws) tt).
Qed.

End Contributions.

Section ScanFacts.

Variable parseJs : string -> string -> LocationOffset -> string -> ParseResult.
Variable nodeWalkAll : ASTNode -> list ASTNode.

Lemma visitNode_appends document : appends (visitNode parseJs document).
Proof.
intros [rs ws] node. unfold visitNode.
pose proof (extractDataBindingsFromTextNode_appends parseJs document) as Htext.
pose proof (fold_left_appends _
              (extractDataBindingsFromAttr_appends parseJs document node))
  as Hattrs.
set (fromText := fun out : Output =>
       match value node with
       | Some v =>
           if isTextNode node && negb (v =? "")
           then extractDataBindingsFromTextNode parseJs document node out
           else out
       | None => out
       end).
assert (forall out, fromText out =
          (fst out ++ fst (fromText ([], [])),
           snd out ++ snd (fromText ([], [])))) as Hfrom.
{ intros [a b]. unfold fromText.
  destruct (value node) as [v|];
    [destruct (isTextNode node && negb (v =? ""))|];
    [apply (Htext (a, b) node) | |]; simpl; now rewrite !app_nil_r. }
change (match attrs node with
        | Some attributes =>
            fold_left
              (fun o attr =>
                 extractDataBindingsFromAttr parseJs document node attr o)
              attributes (fromText (rs, ws))
        | None => fromText (rs, ws)
        end =
        (fst (rs, ws) ++
         fst match attrs node with
             | Some attributes =>
                 fold_left
                   (fun o attr =>
                      extractDataBindingsFromAttr parseJs document node attr o)
                   attributes (fromText ([], []))
             | None => fromText ([], [])
             end,
         snd (rs, ws) ++
         snd match attrs node with
             | Some attributes =>
                 fold_left
                   (fun o attr =>
                      extractDataBindingsFromAttr parseJs document node attr o)
                   attributes (fromText ([], []))
             | None => fromText ([], [])
             end)).
destruct (attrs node) as [attributes|]; [|apply Hfrom].
rewrite (Hattrs attributes (fromText (rs, ws))).
rewrite (Hattrs attributes (fromText ([], []))).
rewrite (Hfrom (rs, ws)). simpl. now rewrite !app_assoc.
Qed.

(** A scan is the concatenation of what each visited node contributes. *)
Lemma extractDataBindingsFromTemplates_flat document templates :
  extractDataBindingsFromTemplates parseJs nodeWalkAll document templates =
  (flat_map
     (fun template =>
        flat_map (fun node => fst (visitNode parseJs document ([], []) node))
          (nodeWalkAll (content template)))
     templates,
   flat_map
     (fun template =>
        flat_map (fun node => snd (visitNode parseJs document ([], []) node))
          (nodeWalkAll (content template)))
     templates).
Proof.
unfold extractDataBindingsFromTemplates.
rewrite (fold_left_appends _
           (appends_fold_left _ (fun t => nodeWalkAll (content t))
              (visitNode_appends document))).
simpl. f_equal; apply flat_map_ext; intros t;
  now rewrite (fold_left_appends _ (visitNode_appends document)).
Qed.



End ScanFacts.

(** ** The grammar validator *)

Section NodeInduction.

Variable P : Node -> Prop.

Hypothesis P_literal : forall v l, P (Literal v l).
Hypothesis P_identifier : forall n l, P (Identifier n l).
Hypothesis P_member :
  forall o p c l, P o -> P p -> P (MemberExpression o p c l).
Hypothesis P_call :
  forall f args l, P f -> Forall P args -> P (CallExpression f args l).
Hypothesis P_unary : forall op a l, P a -> P (UnaryExpression op a l).
Hypothesis P_other :
  forall k children l, Forall P children -> P (OtherExpression k children l).

(** Induction on expressions that reaches the arguments of a call. *)
Fixpoint Node_nested_ind (n : Node) : P n :=
  let all :=
    fix all (l : list Node) : Forall P l :=
      match l with
      | [] => Forall_nil P
      | x :: xs => Forall_cons x (Node_nested_ind x) (all xs)
      end in
  match n with
  | Literal v l => P_literal v l
  | Identifier n l => P_identifier n l
  | MemberExpression o p c l =>
      P_member o p c l (Node_nested_ind o) (Node_nested_ind p)
  | CallExpression f args l => P_call f args l (Node_nested_ind f) (all args)
  | UnaryExpression op a l => P_unary op a l (Node_nested_ind a)
  | OtherExpression k children l => P_other k children l (all children)
  end.

End NodeInduction.

Section ValidatorFacts.

Lemma extends_refl this : extends this this.
Proof.
unfold extends. repeat split; try (exists []; now rewrite app_nil_r).
Qed.

Lemma extends_trans a b c : extends a b -> extends b c -> extends a c.
Proof.
intros (H1 & H2 & H3 & H4 & [ps Hps] & [ws Hws])
       (K1 & K2 & K3 & K4 & [ps' Hps'] & [ws' Hws']).
unfold extends. repeat split; try congruence.
- exists (ps ++ ps'). rewrite Hps', Hps. now rewrite app_assoc.
- exists (ws ++ ws'). rewrite Hws', Hws. now rewrite app_assoc.
Qed.

Lemma extends_pushWarning w this : extends this (pushWarning w this).
Proof.
unfold extends; simpl. repeat split; eauto. exists []; now rewrite app_nil_r.
Qed.

Lemma extends_pushProperty p this : extends this (pushProperty p this).
Proof.
unfold extends; simpl. repeat split; eauto. exists []; now rewrite app_nil_r.
Qed.

Lemma extends_fold (f : DatabindingExpression -> Node -> DatabindingExpression)
    (args : list Node) :
  Forall (fun a => forall this, extends this (f this a)) args ->
  forall this, extends this (fold_left f args this).
Proof.
induction 1 as [|a args Ha _ IH]; intros this; simpl.
- apply extends_refl.
- eapply extends_trans; [apply Ha | apply IH].
Qed.

Lemma _extractAndValidateSubExpression_extends expression :
  forall callAllowed this,
    extends this (_extractAndValidateSubExpression expression callAllowed this).
Proof.
induction expression as [v l|n l|o p c l IHo _|f args l IHf IHargs|op a l _|k ch l _]
  using Node_nested_ind; intros callAllowed this; simpl;
  auto using extends_refl, extends_pushWarning, extends_pushProperty.
destruct callAllowed; [|apply extends_pushWarning].
eapply extends_trans; [apply IHf|].
apply extends_fold. eapply Forall_impl; [|exact IHargs].
intros a Ha this'. apply Ha.
Qed.

Lemma _extractPropertiesAndValidate_extends this :
  extends this (_extractPropertiesAndValidate this).
Proof.
unfold _extractPropertiesAndValidate.
destruct (body (_expressionAst this)) as [|s [|s' rest]];
  try apply extends_pushWarning.
destruct s as [e l|k l]; [|apply extends_pushWarning].
destruct e; try apply _extractAndValidateSubExpression_extends.
destruct (operator =? "!");
  [apply _extractAndValidateSubExpression_extends | apply extends_pushWarning].
Qed.

Lemma newDatabindingExpression_fields range text ast :
  sourceRange (newDatabindingExpression range text ast) = range /\
  expressionText (newDatabindingExpression range text ast) = text /\
  _expressionAst (newDatabindingExpression range text ast) = ast.
Proof.
unfold newDatabindingExpression.
match goal with
| |- context [_extractPropertiesAndValidate ?t] =>
    destruct (_extractPropertiesAndValidate_extends t) as (H1 & H2 & H3 & _)
end.
rewrite H1, H2, H3. now simpl.
Qed.

Lemma root_fold (args : list Node) (p : Property) :
  Forall
    (fun a => forall this,
         In p (properties (_extractAndValidateSubExpression a false this)) ->
         In p (properties this) \/ RootIdentifier a (name p))
    args ->
  forall this,
    In p (properties
            (fold_left
               (fun this' arg =>
                  _extractAndValidateSubExpression arg false this')
               args this)) ->
    In p (properties this) \/
    exists a, In a args /\ RootIdentifier a (name p).
Proof.
induction 1 as [|a args Ha _ IH]; intros this; simpl; [auto|].
intros Hin. apply IH in Hin as [Hin | (a' & Ha' & Hroot)].
- apply Ha in Hin as [Hin | Hroot]; [auto | right; exists a; auto].
- right; exists a'; auto.
Qed.

(** Every property that validation records is named after a root
    identifier of the expression. *)
Lemma recorded_properties_are_roots expression (p : Property) :
  forall callAllowed this,
    In p (properties
            (_extractAndValidateSubExpression expression callAllowed this)) ->
    In p (properties this) \/ RootIdentifier expression (name p).
Proof.
induction expression as [v l|n l|o q c l IHo _|f args l IHf IHargs|op a l _|k ch l _]
  using Node_nested_ind; intros callAllowed this; simpl; auto.
- intros Hin. apply in_app_or in Hin as [Hin | [<- | []]]; [auto|].
  right; constructor.
- intros Hin. apply IHo in Hin as [Hin | Hroot]; [auto|].
  right; now constructor.
- destruct callAllowed; [|simpl; auto].
  intros Hin. apply root_fold in Hin.
  + destruct Hin as [Hin | (a & Ha & Hroot)].
    * apply IHf in Hin as [Hin | Hroot]; [auto|].
      right; now apply root_callee.
    * right; now apply (root_argument f args l a).
  + eapply Forall_impl; [|exact IHargs]. intros a Ha this'. apply Ha.
Qed.

End ValidatorFacts.

(** ** Failures, dropped bindings and missing ranges *)




(** C10: without a source range for the text node, or for the attribute's
    value, extraction leaves both output sequences as they were, whatever
    the text holds. *)
Theorem no_source_range_no_output
    (parseJs : string -> string -> LocationOffset -> string -> ParseResult)
    (document : ParsedHtmlDocument.t) (node : ASTNode) (attr : ASTAttribute)
    (out : Output) :
  (ParsedHtmlDocument.sourceRangeForNode document node = None ->
   extractDataBindingsFromTextNode parseJs document node out = out) /\
  (ParsedHtmlDocument.sourceRangeForAttributeValue document node
     (attr_name attr) true = None ->
   extractDataBindingsFromAttr parseJs document node attr out = out).
Proof.
split; intros Hnone.
- unfold extractDataBindingsFromTextNode. rewrite Hnone.
  now destruct (findDatabindingInString _).
- unfold extractDataBindingsFromAttr. rewrite Hnone.
  now destruct (attr_value attr =? "").
Qed.

Lemma no_source_range_no_output_witness :
  findDatabindingInString "{{foo}}" = [mkRawDatabinding "foo" 2 5 Mustache] /\
  extractDataBindingsFromTextNode (tableParser sampleTable)
    documentWithoutRanges (textNode "{{foo}}") ([], []) = ([], []) /\
  extractDataBindingsFromAttr (tableParser sampleTable)
    documentWithoutRanges (element "div" [mkAttr "title" "{{foo}}"])
    (mkAttr "title" "{{foo}}") ([], []) = ([], []).
Proof.
split; [reflexivity|]. split.
- exact (proj1 (no_source_range_no_output (tableParser sampleTable)
                  documentWithoutRanges (textNode "{{foo}}")
                  (mkAttr "title" "{{foo}}") ([], [])) eq_refl).
- exact (proj2 (no_source_range_no_output (tableParser sampleTable)
                  documentWithoutRanges
                  (element "div" [mkAttr "title" "{{foo}}"])
                  (mkAttr "title" "{{foo}}") ([], [])) eq_refl).
Defined.

(** C1: validating the program of ["foo(bar, baz.zod)"] records exactly the
    properties [foo], [bar], [baz], in that order and without a warning, so
    [zod] is not recorded.  In general, validating a member access is
    validating its object with calls disallowed, whatever the accessed
    property is, and every recorded property is named after an identifier
    at the root of a member or call chain. *)
Theorem member_access_records_object_only :
  (forall range l,
      let e := newDatabindingExpression range "foo(bar, baz.zod)"
                 (fooBarBazZod l) in
      map name (properties e) = ["foo"; "bar"; "baz"] /\
      ~ In "zod" (map name (properties e)) /\
      warnings e = []) /\
  (forall object property computed loc callAllowed this,
      _extractAndValidateSubExpression
        (MemberExpression object property computed loc) callAllowed this =
      _extractAndValidateSubExpression object false this) /\
  (forall expression callAllowed this p,
      In p (properties
              (_extractAndValidateSubExpression expression callAllowed this)) ->
      In p (properties this) \/ RootIdentifier expression (name p)).
Proof.
split; [|split].
- intros range l. simpl. repeat split.
  intros [H|[H|[H|[]]]]; discriminate.
- reflexivity.
- intros expression callAllowed this p.
  apply recorded_properties_are_roots.
Qed.

Lemma member_access_records_object_only_witness :
  In (mkProperty "baz" None) [] \/
  RootIdentifier
    (MemberExpression (Identifier "baz" None) (Identifier "zod" None)
       false None)
    "baz".
Proof.
apply (proj2 (proj2 member_access_records_object_only)
         (MemberExpression (Identifier "baz" None) (Identifier "zod" None)
            false None)
         true
         (mkExpression
            (mkRange "file.html" (mkPosition 0 0) (mkPosition 0 7))
            [] "baz.zod" (mkProgram [] None) (mkOffset 0 0) [])
         (mkProperty "baz" None)).
simpl. left. reflexivity.
Defined.

(** ** Source ranges of bindings *)

Section SubstringFacts.

Lemma substring_empty n m : substring n m "" = "".
Proof. now destruct n, m. Qed.

Lemma substring_split s :
  forall a b c,
    substring a (b + c) s = (substring a b s ++ substring (a + b) c s)%string.
Proof.
induction s as [|ch s IH]; intros a b c.
- now rewrite !substring_empty.
- destruct a as [|a]; simpl.
  + destruct b as [|b]; simpl; [reflexivity|]. now rewrite IH.
  + apply IH.
Qed.

Lemma substring_all s : substring 0 (length s) s = s.
Proof. induction s as [|ch s IH]; simpl; [reflexivity | now rewrite IH]. Qed.

(** A binding whose delimiters are at both ends of [str] makes up all of
    [str] with them. *)
Lemma delimited_whole str b :
  delimited str b ->
  startIndex b = 2 -> endIndex b + 2 = length str ->
  str = (openerText (rawDirection b) ++ rawExpressionText b ++
         closerText (rawDirection b))%string.
Proof.
intros ([Hlo Hhi] & Hopen & Hclose & Htext) Hstart Hend.
unfold occursAt in Hopen, Hclose. unfold slice in Htext.
rewrite Hstart in *. simpl in Hopen.
assert (length (openerText (rawDirection b)) = 2 /\
        length (closerText (rawDirection b)) = 2) as [Lo Lc]
  by (now destruct (rawDirection b)).
rewrite Lo in Hopen. rewrite Lc in Hclose.
rewrite <- (substring_all str) at 1.
replace (length str) with (2 + ((endIndex b - 2) + 2)) by lia.
rewrite (substring_split str 0 2), (substring_split str (0 + 2)).
replace (0 + 2 + (endIndex b - 2)) with (endIndex b) by lia.
simpl (0 + 2). now rewrite Hopen, Hclose, Htext.
Qed.

End SubstringFacts.

Section BindingRanges.

Variable parseJs : string -> string -> LocationOffset -> string -> ParseResult.

Lemma parseExpression_success content range program :
  parsesTo parseJs content program ->
  parseExpression parseJs content range = Some (success program).
Proof. intros H. unfold parseExpression. cbv zeta. now rewrite !H. Qed.

(** A text node with a single binding that parses. *)
Lemma extract_single_text_binding document v range b program out :
  ParsedHtmlDocument.sourceRangeForNode document (textNode v) = Some range ->
  findDatabindingInString v = [b] ->
  parsesTo parseJs (rawExpressionText b) program ->
  let base :=
    newDatabindingExpression
      (bindingSourceRange range (findNewlineIndexes v) b)
      (rawExpressionText b) program in
  extractDataBindingsFromTextNode parseJs document (textNode v) out =
  (fst out ++
     [TextNodeExpression
        (mkTextNodeExpression base (rawDirection b) (textNode v))],
   snd out ++ warnings base).
Proof.
intros Hrange Hscan Hparse base.
unfold extractDataBindingsFromTextNode. cbn [value textNode].
rewrite Hscan, Hrange. cbn [fold_left].
rewrite textNodeBindingStep_unfold.
now rewrite (parseExpression_success _ _ _ Hparse).
Qed.

(** An attribute with a single binding whose text, once the event name is
    split off, parses. *)
Lemma extract_single_attr_binding document node attr range b program out :
  attr_value attr <> "" ->
  ParsedHtmlDocument.sourceRangeForAttributeValue document node
    (attr_name attr) true = Some range ->
  findDatabindingInString (attr_value attr) = [b] ->
  parsesTo parseJs (fst (splitEventName b)) program ->
  let base :=
    newDatabindingExpression
      (bindingSourceRange range (findNewlineIndexes (attr_value attr)) b)
      (fst (splitEventName b)) program in
  extractDataBindingsFromAttr parseJs document node attr out =
  (fst out ++
     [AttributeExpression
        (mkAttributeExpression base node
           ((startIndex b =? 2)%nat &&
            (endIndex b + 2 =? length (attr_value attr))%nat)
           (rawDirection b) (snd (splitEventName b)) attr)],
   snd out ++ warnings base).
Proof.
intros Hvalue Hrange Hscan Hparse base.
unfold extractDataBindingsFromAttr.
apply eqb_neq in Hvalue. rewrite Hvalue, Hrange, Hscan. cbn [fold_left].
rewrite attrBindingStep_unfold.
now rewrite (parseExpression_success _ _ _ Hparse).
Qed.

End BindingRanges.

(** C4: composing a relative range with the offset of the string's start
    adds the offset's line to both line numbers; it adds the offset's column
    to the start column exactly when the range starts on relative line 0, and
    leaves an end column alone when the end is not on relative line 0 (on
    line 0, for a range that starts there, the column is added).  For the
    text node [twoLineText] that starts at line 10 and any column [col], the
    binding [foo] is at relative line 1, column 2, and its absolute range
    starts at line 11, column 2, whatever [col] is. *)
Theorem column_offset_only_on_line_zero :
  (forall range offset,
      let r := correctSourceRange range offset in
      line (start r) = (line (start range) + offset_line offset)%Z /\
      line (end_ r) = (line (end_ range) + offset_line offset)%Z /\
      column (start r) =
        (column (start range) +
         (if (line (start range) =? 0)%Z then offset_col offset else 0))%Z /\
      (line (end_ range) <> 0%Z -> column (end_ r) = column (end_ range)) /\
      (line (start range) = 0%Z -> line (end_ range) = 0%Z ->
       column (end_ r) = (column (end_ range) + offset_col offset)%Z)) /\
  indexesToSourceRange 8 11 "file.html"
    (map Z.of_nat (findNewlineIndexes twoLineText)) =
    mkRange "file.html" (mkPosition 1 2) (mkPosition 1 5) /\
  (forall parseJs program col,
      parsesTo parseJs "foo" program ->
      exists e,
        extractDataBindingsFromTextNode parseJs (documentAt 10 col)
          (textNode twoLineText) ([], []) =
          ([TextNodeExpression e], warnings (textNode_base e)) /\
        expressionText (textNode_base e) = "foo" /\
        start (sourceRange (textNode_base e)) = mkPosition 11 2).
Proof.
split; [|split].
- intros [f [sl sc] [el ec]] [ol oc]; simpl. repeat split.
  + rewrite andb_diag. reflexivity.
  + intros Hne. apply Z.eqb_neq in Hne. rewrite Hne, andb_false_r. lia.
  + intros -> ->. reflexivity.
- reflexivity.
- intros parseJs program col Hparse.
  eexists (mkTextNodeExpression _ _ _).
  rewrite (extract_single_text_binding parseJs (documentAt 10 col) twoLineText
             (mkRange "file.html" (mkPosition 10 col) (mkPosition (10 + 1) 0))
             (mkRawDatabinding "foo" 8 11 Mustache) program ([], [])
             eq_refl eq_refl Hparse).
  cbn [fst snd app textNode_base].
  split; [reflexivity|].
  destruct (newDatabindingExpression_fields
              (bindingSourceRange
                 (mkRange "file.html" (mkPosition 10 col)
                    (mkPosition (10 + 1) 0))
                 (findNewlineIndexes twoLineText)
                 (mkRawDatabinding "foo" 8 11 Mustache))
              "foo" program) as (Hr & Ht & _).
  cbn [rawExpressionText] in *. rewrite Hr, Ht.
  split; reflexivity.
Qed.

Lemma column_offset_only_on_line_zero_witness :
  exists e,
    extractDataBindingsFromTextNode (tableParser sampleTable)
      (documentAt 10 4) (textNode twoLineText) ([], []) =
      ([TextNodeExpression e], warnings (textNode_base e)) /\
    expressionText (textNode_base e) = "foo" /\
    start (sourceRange (textNode_base e)) = mkPosition 11 2.
Proof.
apply (proj2 (proj2 column_offset_only_on_line_zero)
         (tableParser sampleTable) (identifierProgram "foo") 4%Z).
intros file offset code. reflexivity.
Defined.

(** ** Attribute bindings *)

Section AttributeFacts.

Variable parseJs : string -> string -> LocationOffset -> string -> ParseResult.

(** Every attribute expression in the output comes from one raw binding of
    the attribute's value. *)
Lemma attribute_expression_origin document node attr e :
  In (AttributeExpression e)
    (fst (extractDataBindingsFromAttr parseJs document node attr ([], []))) ->
  exists b range program,
    In b (findDatabindingInString (attr_value attr)) /\
    e = mkAttributeExpression
          (newDatabindingExpression
             (bindingSourceRange range
                (findNewlineIndexes (attr_value attr)) b)
             (fst (splitEventName b)) program)
          node
          ((startIndex b =? 2)%nat &&
           (endIndex b + 2 =? length (attr_value attr))%nat)
          (rawDirection b) (snd (splitEventName b)) attr.
Proof.
unfold extractDataBindingsFromAttr.
destruct (attr_value attr =? ""); [intros []|].
destruct (ParsedHtmlDocument.sourceRangeForAttributeValue _ _ _ _)
  as [range|]; [|intros []].
rewrite (fold_left_appends _ (attrBindingStep_appends parseJs _ _ _ _)).
cbn [fst snd app]. intros Hin. apply in_flat_map in Hin as (b & Hb & Hin).
rewrite attrBindingStep_unfold in Hin.
destruct (parseExpression _ _ _) as [[program|warning]|]; simpl in Hin;
  try contradiction.
destruct Hin as [[= <-] | []].
now exists b, range, program.
Qed.

End AttributeFacts.

(** C5: every attribute expression that extraction returns comes from a raw
    binding of the attribute's value, and its [isCompleteBinding] is true if
    and only if that binding has [startIndex = 2] and
    [endIndex + 2 = value.length]; the value is then the opener, the
    binding's text and the closer, and nothing else.  When [bar] parses, the
    value ["{{bar}}"] gives a complete binding and ["x {{bar}} y"] gives one
    that is not complete. *)
Theorem complete_binding_iff_delimiters_span_value :
  (forall parseJs document node attr e,
      In (AttributeExpression e)
        (fst (extractDataBindingsFromAttr parseJs document node attr
                ([], []))) ->
      exists b,
        In b (findDatabindingInString (attr_value attr)) /\
        attribute_direction e = rawDirection b /\
        expressionText (attribute_base e) = fst (splitEventName b) /\
        (isCompleteBinding e = true <->
         startIndex b = 2 /\ endIndex b + 2 = length (attr_value attr)) /\
        (isCompleteBinding e = true ->
         attr_value attr =
           (openerText (rawDirection b) ++ rawExpressionText b ++
            closerText (rawDirection b))%string)) /\
  (forall parseJs program,
      parsesTo parseJs "bar" program ->
      (exists e,
          extractDataBindingsFromAttr parseJs (documentAt 3 9)
            (element "div" [mkAttr "foo" "{{bar}}"])
            (mkAttr "foo" "{{bar}}") ([], []) =
            ([AttributeExpression e], warnings (attribute_base e)) /\
          isCompleteBinding e = true) /\
      (exists e,
          extractDataBindingsFromAttr parseJs (documentAt 3 9)
            (element "div" [mkAttr "foo" "x {{bar}} y"])
            (mkAttr "foo" "x {{bar}} y") ([], []) =
            ([AttributeExpression e], warnings (attribute_base e)) /\
          isCompleteBinding e = false)).
Proof.
split.
- intros parseJs document node attr e Hin.
  apply attribute_expression_origin in Hin
    as (b & range & program & Hb & ->).
  exists b. cbn [attribute_direction attribute_base isCompleteBinding].
  assert ((startIndex b =? 2)%nat &&
          (endIndex b + 2 =? length (attr_value attr))%nat = true <->
          startIndex b = 2 /\ endIndex b + 2 = length (attr_value attr))
    as Hiff by (now rewrite andb_true_iff, !Nat.eqb_eq).
  repeat split; try tauto.
  + apply newDatabindingExpression_fields.
  + intros Hcomplete. apply Hiff in Hcomplete as [Hs He].
    apply delimited_whole; [|assumption..].
    pose proof (scan_delimited (attr_value attr)) as Hall.
    rewrite Forall_forall in Hall. now apply Hall.
- intros parseJs program Hparse. split.
  + eexists (mkAttributeExpression _ _ _ _ _ _).
    rewrite (extract_single_attr_binding parseJs (documentAt 3 9)
               (element "div" [mkAttr "foo" "{{bar}}"])
               (mkAttr "foo" "{{bar}}")
               (mkRange "file.html" (mkPosition 3 9) (mkPosition (3 + 1) 0))
               (mkRawDatabinding "bar" 2 5 Mustache) program ([], []));
      [split; reflexivity | discriminate | reflexivity | reflexivity
       | exact Hparse].
  + eexists (mkAttributeExpression _ _ _ _ _ _).
    rewrite (extract_single_attr_binding parseJs (documentAt 3 9)
               (element "div" [mkAttr "foo" "x {{bar}} y"])
               (mkAttr "foo" "x {{bar}} y")
               (mkRange "file.html" (mkPosition 3 9) (mkPosition (3 + 1) 0))
               (mkRawDatabinding "bar" 4 7 Mustache) program ([], []));
      [split; reflexivity | discriminate | reflexivity | reflexivity
       | exact Hparse].
Qed.

Lemma complete_binding_iff_delimiters_span_value_witness :
  (exists e,
      extractDataBindingsFromAttr (tableParser sampleTable) (documentAt 3 9)
        (element "div" [mkAttr "foo" "{{bar}}"])
        (mkAttr "foo" "{{bar}}") ([], []) =
        ([AttributeExpression e], warnings (attribute_base e)) /\
      isCompleteBinding e = true) /\
  (exists e,
      extractDataBindingsFromAttr (tableParser sampleTable) (documentAt 3 9)
        (element "div" [mkAttr "foo" "x {{bar}} y"])
        (mkAttr "foo" "x {{bar}} y") ([], []) =
        ([AttributeExpression e], warnings (attribute_base e)) /\
      isCompleteBinding e = false).
Proof.
apply (proj2 complete_binding_iff_delimiters_span_value
         (tableParser sampleTable) (identifierProgram "bar")).
intros file offset code. reflexivity.
Defined.

(** ** The sub-property path convention *)

Section SubPropertyFacts.

Lemma subPropertyTest_suffix pre rest :
  subPropertyTest rest = true -> subPropertyTest (pre ++ rest) = true.
Proof.
intros H. induction pre as [|c pre IH]; simpl; [assumption|].
rewrite IH. apply orb_true_r.
Qed.

Lemma subPropertyTest_trailing content :
  TrailingSubProperty content -> subPropertyTest content = true.
Proof.
intros [pre [-> | (digits & Hne & Hdigits & ->)]];
  apply subPropertyTest_suffix; [reflexivity|].
destruct digits as [|d ds]; [contradiction|].
simpl in Hdigits. apply andb_true_iff in Hdigits as [Hd _].
simpl. now rewrite Hd, orb_true_r.
Qed.

End SubPropertyFacts.

(** C7: a text that the parser rejects and that ends with a path segment
    [.*] or [.<digits>] makes [parseExpression] return [undefined], and the
    binding that holds it leaves both output sequences untouched in the
    text-node loop and in the attribute loop, and a string literal that
    holds it gives no expression and no warning: no expression record, no
    diagnostic. *)
Theorem sub_property_path_dropped_silently
    (parseJs : string -> string -> LocationOffset -> string -> ParseResult)
    (content : string) :
  failsToParse parseJs content ->
  TrailingSubProperty content ->
  (forall range, parseExpression parseJs content range = None) /\
  (forall node range newlineIndexes out b,
      rawExpressionText b = content ->
      textNodeBindingStep parseJs node range newlineIndexes out b = out) /\
  (forall node attr range newlineIndexes out b,
      fst (splitEventName b) = content ->
      attrBindingStep parseJs node attr range newlineIndexes out b = out) /\
  (forall document loc range,
      JavaScriptDocument.sourceRangeForNode document
        (Literal (LString content) loc) = Some range ->
      parseExpressionInJsStringLiteral parseJs document
        (Literal (LString content) loc) = Some (mkJsLiteralResult None [])).
Proof.
intros Hfails Htrailing.
assert (forall range, parseExpression parseJs content range = None) as Hnone.
{ intros range. unfold parseExpression. cbv zeta.
  destruct (Hfails (file range)
              {| offset_line := line (start range);
                 offset_col := column (start range) |}
              "polymer-expression-parse-error") as [warning Hw].
  rewrite !Hw. now rewrite (subPropertyTest_trailing _ Htrailing). }
repeat split; [exact Hnone | | |].
- intros node range nl out b Hb.
  now rewrite textNodeBindingStep_unfold, Hb, Hnone.
- intros node attr range nl out b Hb.
  now rewrite attrBindingStep_unfold, Hb, Hnone.
- intros document loc range Hrange.
  unfold parseExpressionInJsStringLiteral. cbv zeta.
  now rewrite Hrange, Hnone.
Qed.

Lemma sub_property_path_dropped_silently_witness :
  (forall range,
      parseExpression (tableParser sampleTable) "items.0" range = None) /\
  (forall node range newlineIndexes out b,
      rawExpressionText b = "items.0" ->
      textNodeBindingStep (tableParser sampleTable) node range
        newlineIndexes out b = out) /\
  (forall node attr range newlineIndexes out b,
      fst (splitEventName b) = "items.0" ->
      attrBindingStep (tableParser sampleTable) node attr range
        newlineIndexes out b = out) /\
  (forall document loc range,
      JavaScriptDocument.sourceRangeForNode document
        (Literal (LString "items.0") loc) = Some range ->
      parseExpressionInJsStringLiteral (tableParser sampleTable) document
        (Literal (LString "items.0") loc) = Some (mkJsLiteralResult None [])).
Proof.
apply (sub_property_path_dropped_silently (tableParser sampleTable) "items.0").
- intros file offset code. eexists. reflexivity.
- exists "items". right. exists "0". repeat split. discriminate.
Defined.

(** ** The event-name split *)

Section EventNameFacts.

Lemma prefix_separator s :
  prefix "::" s = true ->
  s = ("::" ++ substring 2 (length s - 2) s)%string.
Proof.
intros H. apply (prefix_correct "::" s) in H.
destruct s as [|a [|b t]]; try discriminate.
cbn [length substring] in H. injection H as -> ->.
cbn [length substring Nat.sub]. rewrite Nat.sub_0_r, substring_all.
reflexivity.
Qed.

Lemma splitAtLastSeparator_tail c s :
  splitAtLastSeparator (String c s) = None -> splitAtLastSeparator s = None.
Proof.
cbn [splitAtLastSeparator].
now destruct (splitAtLastSeparator s) as [[g1 g2]|].
Qed.

(** The split cuts [s] at a separator, and no separator starts after it. *)
Lemma splitAtLastSeparator_some s :
  forall g1 g2,
    splitAtLastSeparator s = Some (g1, g2) ->
    s = (g1 ++ "::" ++ g2)%string /\
    splitAtLastSeparator (String ":" g2) = None.
Proof.
induction s as [|c s IH]; intros g1 g2; [discriminate|].
cbn [splitAtLastSeparator].
destruct (splitAtLastSeparator s) as [[h1 h2]|] eqn:Hs.
- intros [= <- <-]. destruct (IH h1 h2 eq_refl) as [-> Hnone].
  now split.
- destruct (prefix "::" (String c s)) eqn:Hp; [|discriminate].
  intros [= <- <-]. apply prefix_separator in Hp.
  split; [exact Hp|].
  simpl in Hp. injection Hp as _ Hs'.
  change (splitAtLastSeparator
            (String ":" (substring 1 (length s - 1) s)) = None).
  rewrite <- Hs'. exact Hs.
Qed.

Lemma splitAtLastSeparator_none s :
  splitAtLastSeparator s = None -> forall j, ~ occursAt "::" s j.
Proof.
unfold occursAt.
induction s as [|c s IH]; intros Hnone j.
- now rewrite substring_empty.
- pose proof (splitAtLastSeparator_tail _ _ Hnone) as Htail.
  destruct j as [|j]; [|apply (IH Htail j)].
  intros Hocc. apply (prefix_correct "::" (String c s)) in Hocc.
  cbn [splitAtLastSeparator] in Hnone.
  rewrite Htail, Hocc in Hnone. discriminate.
Qed.

Lemma substring_skip a t m :
  forall j, substring (length a + j) m (a ++ t) = substring j m t.
Proof. induction a as [|c a IH]; intros j; simpl; [reflexivity | apply IH]. Qed.

(** Where the split cuts is the last place a separator occurs. *)
Lemma splitAtLastSeparator_last s g1 g2 :
  splitAtLastSeparator s = Some (g1, g2) ->
  s = (g1 ++ "::" ++ g2)%string /\
  occursAt "::" s (length g1) /\
  forall j, length g1 < j -> ~ occursAt "::" s j.
Proof.
intros Hs. apply splitAtLastSeparator_some in Hs as [-> Hnone].
split; [reflexivity|]. unfold occursAt. split.
- rewrite <- (Nat.add_0_r (length g1)), substring_skip. now destruct g2.
- intros j Hj.
  replace j with (length g1 + S (j - length g1 - 1)) by lia.
  rewrite substring_skip.
  apply (splitAtLastSeparator_none _ Hnone (j - length g1 - 1)).
Qed.

Lemma takeLine_noLineTerminator s :
  noLineTerminator s = true -> takeLine s = s.
Proof.
induction s as [|c s IH]; simpl; [reflexivity|].
destruct (isLineTerminator c); simpl; [discriminate|].
intros H. now rewrite IH.
Qed.

(** On a text without line terminators the regular expression splits the
    whole text at its last separator. *)
Lemma matchEventName_single_line s :
  noLineTerminator s = true ->
  matchEventName s = splitAtLastSeparator s.
Proof.
induction s as [|c s IH]; intros Hline; [reflexivity|].
cbn [matchEventName]. unfold matchEventNameHere.
rewrite (takeLine_noLineTerminator _ Hline).
destruct (splitAtLastSeparator (String c s)) as [[g1 g2]|] eqn:Hs;
  [reflexivity|].
simpl in Hline. apply andb_true_iff in Hline as [_ Hline].
rewrite (IH Hline). now apply splitAtLastSeparator_tail in Hs.
Qed.

(** What holds of the attribute loop on one line: a mustache binding whose
    text has no line terminator is split at the last separator of the text,
    and a bracket binding is never split. *)
Lemma splitEventName_single_line b :
  noLineTerminator (rawExpressionText b) = true ->
  match rawDirection b, splitEventName b with
  | Mustache, (text, Some event) =>
      rawExpressionText b = (text ++ "::" ++ event)%string /\
      forall j, length text < j -> ~ occursAt "::" (rawExpressionText b) j
  | Mustache, (text, None) =>
      text = rawExpressionText b /\
      forall j, ~ occursAt "::" (rawExpressionText b) j
  | Bracket, split => split = (rawExpressionText b, None)
  end.
Proof.
intros Hline. unfold splitEventName.
destruct (rawDirection b); [|reflexivity].
rewrite (matchEventName_single_line _ Hline).
destruct (splitAtLastSeparator (rawExpressionText b)) as [[g1 g2]|] eqn:Hs.
- apply splitAtLastSeparator_last in Hs as (Heq & _ & Hlast). now split.
- split; [reflexivity | now apply splitAtLastSeparator_none].
Qed.

End EventNameFacts.

(** C6: on one line the attribute loop splits as the spec says: the text
    [val::changed] of a mustache binding is parsed as [val] with event name
    [changed], and the same text in a bracket binding is left whole, without
    event name.  On the two-line value [twoLineBindingValue] it does not: the
    text handed to the parser is [ b)], the part of the second line before
    the separator, and not [compute(a,], newline, [ b)]; with a parser that
    accepts the expression before the event name, extraction yields no
    expression and one parse warning. *)
Theorem event_name_split_keeps_one_line_only :
  splitEventName (mkRawDatabinding "val::changed" 2 14 Mustache) =
    ("val", Some "changed") /\
  splitEventName (mkRawDatabinding "val::changed" 2 14 Bracket) =
    ("val::changed", None) /\
  findDatabindingInString twoLineBindingValue =
    [mkRawDatabinding twoLineBindingText 2 24 Mustache] /\
  splitEventName (mkRawDatabinding twoLineBindingText 2 24 Mustache) =
    (" b)", Some "change") /\
  exists warning,
    extractDataBindingsFromAttr
      (tableParser [("compute(a," ++ newline ++ " b)", computeAB)])%string
      (documentAt 3 9)
      (element "div" [mkAttr "value" twoLineBindingValue])
      (mkAttr "value" twoLineBindingValue) ([], []) = ([], [warning]) /\
    Warning.code warning = "polymer-expression-parse-error".
Proof.
repeat split; try reflexivity.
eexists. vm_compute. split; reflexivity.
Qed.

(** C9: on one line the split is at the last separator: [a::b::c] gives the
    text [a::b] and the event name [c].  In [twoSeparatorLines] the
    separator occurs at indexes 1 and 6, and the split is at index 1, the
    last separator of the first line, giving the text [a] and the event
    name [b]. *)
Theorem event_name_split_at_last_separator_of_a_line :
  splitEventName (mkRawDatabinding "a::b::c" 2 9 Mustache) =
    ("a::b", Some "c") /\
  findDatabindingInString ("{{" ++ twoSeparatorLines ++ "}}") =
    [mkRawDatabinding twoSeparatorLines 2 11 Mustache] /\
  occursAt "::" twoSeparatorLines 1 /\
  occursAt "::" twoSeparatorLines 6 /\
  splitEventName (mkRawDatabinding twoSeparatorLines 2 11 Mustache) =
    ("a", Some "b").
Proof.
repeat split; reflexivity.
Qed.

(** * Further properties *)

(** ** More on the delimiter scanner *)

Section SearchFacts.

Variable str : string.

(** [index] finds the first occurrence at or after its start. *)
Lemma index_some_intro search n m :
  search <> "" ->
  n <= m ->
  occursAt search str m ->
  (forall p, n <= p -> p < m -> ~ occursAt search str p) ->
  index n search str = Some m.
Proof.
intros Hne Hnm Hocc Hfirst.
destruct (index n search str) as [k|] eqn:Hk.
- f_equal.
  pose proof (index_bounds _ _ _ _ Hk) as [Hnk _].
  pose proof (index_correct1 _ _ _ _ Hk) as Hat.
  pose proof (index_correct2 _ _ _ _ Hk) as Hbefore.
  destruct (Nat.lt_trichotomy k m) as [Hlt | [Heq | Hgt]]; [|assumption|].
  + exfalso. now apply (Hfirst k).
  + exfalso. now apply (Hbefore m).
- exfalso. now apply (index_correct3 n m search str).
Qed.

Lemma openers_exec_leftmost lastIndex idx m :
  openers_exec str lastIndex = Some (idx, m) ->
  forall j, lastIndex <= j -> j < idx -> ~ opensAt str j.
Proof.
unfold openers_exec, opensAt, occursAt.
destruct (index lastIndex "{{" str) as [a|] eqn:Ha;
  destruct (index lastIndex "[[" str) as [b|] eqn:Hb; try discriminate.
- pose proof (index_correct2 _ _ _ _ Ha) as Hma.
  pose proof (index_correct2 _ _ _ _ Hb) as Hmb.
  destruct (a <? b)%nat eqn:Hab; intros [= <- <-] j Hlo Hhi [H|H].
  + now apply (Hma j).
  + apply Nat.ltb_lt in Hab. apply (Hmb j); [assumption | lia | assumption].
  + apply Nat.ltb_ge in Hab. apply (Hma j); [assumption | lia | assumption].
  + now apply (Hmb j).
- pose proof (index_correct2 _ _ _ _ Ha) as Hma.
  intros [= <- <-] j Hlo Hhi [H|H].
  + now apply (Hma j).
  + now apply (index_correct3 lastIndex j "[[" str).
- pose proof (index_correct2 _ _ _ _ Hb) as Hmb.
  intros [= <- <-] j Hlo Hhi [H|H].
  + now apply (index_correct3 lastIndex j "{{" str).
  + now apply (Hmb j).
Qed.

Lemma openers_exec_none lastIndex :
  (forall j, lastIndex <= j -> ~ opensAt str j) ->
  openers_exec str lastIndex = None.
Proof.
intros Hno. unfold openers_exec.
destruct (index lastIndex "{{" str) as [a|] eqn:Ha.
- exfalso. apply (Hno a); [now apply index_bounds in Ha|].
  left. now apply index_correct1 in Ha.
- destruct (index lastIndex "[[" str) as [b|] eqn:Hb; [|reflexivity].
  exfalso. apply (Hno b); [now apply index_bounds in Hb|].
  right. now apply index_correct1 in Hb.
Qed.

(** What holds of every binding a turn can push holds of every binding of
    the result. *)
Lemma scan_all (P : RawDatabinding -> Prop) :
  (forall lastIndex idx m endIdx,
      openers_exec str lastIndex = Some (idx, m) ->
      indexOf str (closersOf m) (idx + 2) = Some endIdx ->
      P (emitted str idx m endIdx)) ->
  Forall P (findDatabindingInString str).
Proof.
intros Hstep.
destruct (scan_ends str) as (li & e & Hhead & ->).
induction Hhead as [|li e idx m j Hhead IH Hopen Hclose]; [constructor|].
apply Forall_app; split; [exact IH|].
constructor; [|constructor]. now apply (Hstep li).
Qed.

End SearchFacts.

Lemma no_opener_no_binding (str : string) :
  (forall j, ~ opensAt str j) ->
  findDatabindingInString str = [].
Proof.
intros Hno. apply loop_no_opener.
apply openers_exec_none. intros j _. apply Hno.
Qed.

(** X1: a string in which neither opener occurs gives no binding. *)
Theorem scan_without_opener_is_empty (str : string) :
  (forall j, ~ opensAt str j) ->
  findDatabindingInString str = [].
Proof.
intros Hno. unfold findDatabindingInString.
apply loop_no_opener.
apply openers_exec_none.
intros j _. apply Hno.
Qed.

Lemma scan_without_opener_is_empty_witness :
  findDatabindingInString "plain {text} with [no] binding }}" = [].
Proof.
apply (scan_without_opener_is_empty "plain {text} with [no] binding }}").
intros j [H|H].
- apply (indexOf_none_inv _ "{{" 0) with (j := j) in H;
    [assumption | discriminate | reflexivity | lia].
- apply (indexOf_none_inv _ "[[" 0) with (j := j) in H;
    [assumption | discriminate | reflexivity | lia].
Defined.

(** X2: the text of a binding ends at the first closer after its opener: the
    closer of its kind occurs nowhere from [startIndex] up to, but not
    including, [endIndex]. *)
Theorem binding_ends_at_first_closer (str : string) (b : RawDatabinding)
    (j : nat) :
  In b (findDatabindingInString str) ->
  startIndex b <= j -> j < endIndex b ->
  ~ occursAt (closerText (rawDirection b)) str j.
Proof.
intros Hin. revert j.
pose proof (scan_all str
              (fun b => forall j, startIndex b <= j -> j < endIndex b ->
                           ~ occursAt (closerText (rawDirection b)) str j))
  as Hall.
rewrite Forall_forall in Hall. apply Hall; [|exact Hin].
intros li idx m e Hopen Hclose j Hlo Hhi. simpl in *.
rewrite <- closersOf_closerText. unfold occursAt.
now apply (index_correct2 _ _ _ _ Hclose).
Qed.

Lemma binding_ends_at_first_closer_witness :
  ~ occursAt "}}" "{{a}b}}c}}" 3.
Proof.
apply (binding_ends_at_first_closer "{{a}b}}c}}"
         (mkRawDatabinding "a}b" 2 5 Mustache) 3).
- left. reflexivity.
- simpl. lia.
- simpl. lia.
Defined.

Section ScanShape.

Variable str : string.

Lemma resumeIndex_snoc from l b :
  resumeIndex from (l ++ [b]) = endIndex b + 2.
Proof. revert from. induction l as [|a l IH]; intros from; simpl; auto. Qed.

Lemma noOpenerSkipped_snoc l :
  forall from b,
    noOpenerSkipped str from l ->
    (forall j, resumeIndex from l <= j -> j + 2 < startIndex b ->
               ~ opensAt str j) ->
    noOpenerSkipped str from (l ++ [b]).
Proof.
induction l as [|a l IH]; intros from b; simpl.
- intros _ H. split; [exact H | exact I].
- intros [Ha Hl] H. split; [exact Ha|]. now apply IH.
Qed.

Lemma loop_head_resume lastIndex expressions :
  LoopHead str lastIndex expressions ->
  resumeIndex 0 expressions = lastIndex /\
  noOpenerSkipped str 0 expressions.
Proof.
induction 1 as [|li e idx m j Hhead [IHr IHs] Hopen Hclose].
- split; [reflexivity | exact I].
- split; [apply resumeIndex_snoc|].
  apply noOpenerSkipped_snoc; [assumption|].
  rewrite IHr. simpl. intros k Hlo Hhi.
  apply (openers_exec_leftmost str li idx m Hopen); lia.
Qed.

Lemma openers_exec_none_inv lastIndex :
  openers_exec str lastIndex = None ->
  forall j, lastIndex <= j -> ~ opensAt str j.
Proof.
unfold openers_exec, opensAt, occursAt.
destruct (index lastIndex "{{" str) as [a|] eqn:Ha;
  destruct (index lastIndex "[[" str) as [b|] eqn:Hb;
  try discriminate; [now destruct (a <? b)%nat|].
intros _ j Hj [H|H].
- now apply (index_correct3 lastIndex j "{{" str).
- now apply (index_correct3 lastIndex j "[[" str).
Qed.

End ScanShape.

(** X3: the scanner skips no opener and stops only when it must.  No opener
    occurs before the opener of the first binding, nor between the closer of
    a binding and the opener of the next; and after the last binding either
    no opener occurs any more, or the first one that does has no closer of
    its kind after it. *)
Theorem scan_skips_no_opener (str : string) :
  let result := findDatabindingInString str in
  noOpenerSkipped str 0 result /\
  ((forall j, resumeIndex 0 result <= j -> ~ opensAt str j) \/
   exists idx m,
     openers_exec str (resumeIndex 0 result) = Some (idx, m) /\
     forall j, idx + 2 <= j -> ~ occursAt (closersOf m) str j).
Proof.
cbv zeta.
destruct (loop_runs_to_end str (length str) 0 [])
  as (li & e & Hhead & Heq & Hend); [lia | constructor |].
change (findDatabindingLoop str 0 []) with (findDatabindingInString str) in Heq.
rewrite Heq.
destruct (loop_head_resume str li e Hhead) as [-> Hskip].
split; [exact Hskip|].
destruct Hend as [Hnone | (idx & m & Hopen & Hclose)].
- left. now apply openers_exec_none_inv.
- right. exists idx, m. split; [exact Hopen|].
  apply indexOf_none_inv; [|exact Hclose].
  rewrite closersOf_closerText. now destruct (directionOf m).
Qed.

(** X4: for every binding of a result, the part of the string from two
    characters before [startIndex] to two characters after [endIndex] is the
    opener, the binding's text and the closer of the same kind. *)
Theorem binding_slice_is_delimited_text (str : string) (b : RawDatabinding) :
  In b (findDatabindingInString str) ->
  slice str (startIndex b - 2) (endIndex b + 2) =
    (openerText (rawDirection b) ++ rawExpressionText b ++
     closerText (rawDirection b))%string.
Proof.
intros Hin.
pose proof (scan_delimited str) as Hall. rewrite Forall_forall in Hall.
destruct (Hall b Hin) as ([Hlo Hhi] & Hopen & Hclose & Htext).
unfold occursAt in Hopen, Hclose. unfold slice in *.
assert (length (openerText (rawDirection b)) = 2 /\
        length (closerText (rawDirection b)) = 2) as [Lo Lc]
  by (now destruct (rawDirection b)).
rewrite Lo in Hopen. rewrite Lc in Hclose.
replace (endIndex b + 2 - (startIndex b - 2))
  with (2 + ((endIndex b - startIndex b) + 2)) by lia.
rewrite substring_split, substring_split.
replace (startIndex b - 2 + 2) with (startIndex b) by lia.
replace (startIndex b + (endIndex b - startIndex b)) with (endIndex b) by lia.
now rewrite Hopen, Hclose, Htext.
Qed.

Lemma binding_slice_is_delimited_text_witness :
  slice "a [[b c]] d" 2 9 = ("[[" ++ "b c" ++ "]]")%string.
Proof.
apply (binding_slice_is_delimited_text "a [[b c]] d"
         (mkRawDatabinding "b c" 4 7 Bracket)).
left. reflexivity.
Defined.

Section WrappedText.

Lemma length_append (a b : string) :
  length (a ++ b) = length a + length b.
Proof. induction a as [|c a IH]; simpl; [reflexivity | now rewrite IH]. Qed.

Lemma substring_prefix (a b : string) :
  substring 0 (length a) (a ++ b) = a.
Proof.
induction a as [|c a IH]; simpl; [now destruct b | now rewrite IH].
Qed.

Lemma substring_at_end (a b : string) :
  substring (length a) (length b) (a ++ b) = b.
Proof.
rewrite <- (Nat.add_0_r (length a)), substring_skip. apply substring_all.
Qed.

Lemma opener_facts (d : Direction) :
  length (openerText d) = 2 /\
  openerText d <> "" /\ closerText d <> "" /\
  directionOf (openerText d) = d /\
  closersOf (openerText d) = closerText d.
Proof. destruct d; repeat split; discriminate. Qed.

Lemma openers_exec_at_start (d : Direction) (rest : string) :
  openers_exec (openerText d ++ rest) 0 = Some (0, openerText d).
Proof.
assert (index 0 (openerText d) (openerText d ++ rest) = Some 0) as Hmine.
{ apply index_some_intro; [apply opener_facts | lia | | lia].
  unfold occursAt. apply substring_prefix. }
unfold openers_exec. destruct d; simpl openerText in *.
- rewrite Hmine.
  destruct (index 0 "[[" ("{{" ++ rest)) as [j|] eqn:Hj; [|reflexivity].
  destruct j as [|j]; [|reflexivity].
  apply index_correct1 in Hj.
  change (length "[[") with (length "{{") in Hj.
  rewrite substring_prefix in Hj. discriminate.
- rewrite Hmine.
  destruct (index 0 "{{" ("[[" ++ rest)) as [i|]; reflexivity.
Qed.

End WrappedText.

(** X5: wrapping a text in an opener and the closer of the same kind and
    scanning the result gives back exactly that text, as one binding from
    index 2 to index [2 + length], provided the closer does not occur in
    the wrapped text before its own position. *)
Theorem scan_of_wrapped_text (d : Direction) (t : string) :
  (forall j, j < length t ->
             ~ occursAt (closerText d) (t ++ closerText d) j) ->
  findDatabindingInString (openerText d ++ t ++ closerText d) =
    [mkRawDatabinding t 2 (2 + length t) d].
Proof.
intros Hfirst.
destruct (opener_facts d) as (Lo & Hone & Hcne & Hdir & Hclosers).
set (str := (openerText d ++ t ++ closerText d)%string).
assert (length (closerText d) = 2) as Lc by now destruct d.
assert (length str = 2 + length t + 2) as Hlen
  by (unfold str; rewrite !length_append; lia).
assert (indexOf str (closersOf (openerText d)) (0 + 2) = Some (2 + length t))
  as Hclose.
{ rewrite Hclosers. apply index_some_intro; [assumption | lia | |].
  - unfold occursAt, str. rewrite <- Lo at 1.
    rewrite substring_skip. apply substring_at_end.
  - intros p Hlo Hhi Hocc. apply (Hfirst (p - 2)); [lia|].
    unfold occursAt, str in *.
    replace p with (length (openerText d) + (p - 2)) in Hocc by lia.
    now rewrite substring_skip in Hocc. }
assert (slice str (0 + 2) (2 + length t) = t) as Hslice.
{ unfold slice, str.
  replace (2 + length t - (0 + 2)) with (length t) by lia.
  replace (0 + 2) with (length (openerText d) + 0) by lia.
  rewrite substring_skip. apply substring_prefix. }
unfold findDatabindingInString.
rewrite (loop_step str 0 [] 0 (openerText d) (2 + length t)
           (openers_exec_at_start d _) Hclose).
rewrite loop_no_opener.
- now rewrite Hslice, Hdir.
- destruct (openers_exec str (2 + length t + 2)) as [[idx m]|] eqn:Hnext;
    [|reflexivity].
  apply openers_exec_bounds in Hnext. lia.
Qed.

Lemma scan_of_wrapped_text_witness :
  findDatabindingInString ("[[" ++ "items]0" ++ "]]") =
    [mkRawDatabinding "items]0" 2 (2 + 7) Bracket].
Proof.
apply (scan_of_wrapped_text Bracket "items]0").
intros j Hj Hocc. unfold occursAt in Hocc. simpl in Hj.
do 7 (destruct j as [|j]; [cbv in Hocc; discriminate Hocc|]). lia.
Defined.

(** ** Line feeds, lines and columns *)

Section NewlineFacts.

Variable str : string.

Lemma newline_loop_done position indexes :
  indexOf str newline position = None ->
  findNewlineLoop str position indexes = indexes.
Proof.
intros H. rewrite findNewlineLoop_equation_1.
destruct (inspect (indexOf str newline position)) as [[idx|] Hi];
  simp findNewlineLoop; [congruence | reflexivity].
Qed.

Lemma newline_loop_step position indexes idx :
  indexOf str newline position = Some idx ->
  findNewlineLoop str position indexes =
  findNewlineLoop str (idx + 1) (indexes ++ [idx]).
Proof.
intros H. rewrite findNewlineLoop_equation_1.
destruct (inspect (indexOf str newline position)) as [[k|] Hk];
  simp findNewlineLoop; [|congruence].
assert (k = idx) as -> by congruence. reflexivity.
Qed.

Lemma occurs_newline_get i :
  occursAt newline str i <-> get i str = Some lineFeed.
Proof.
unfold occursAt. simpl length. revert i.
induction str as [|c s IH]; intros i.
- rewrite substring_empty. simpl. split; discriminate.
- destruct i as [|i]; simpl.
  + replace (substring 0 0 s) with "" by now destruct s.
    split; intros [= ->]; reflexivity.
  + apply IH.
Qed.

(** From [position] on, the loop appends the indexes of the line feeds at
    or after [position], in increasing order. *)
Lemma newline_loop_spec n :
  forall position indexes,
    length str - position <= n ->
    exists rest,
      findNewlineLoop str position indexes = indexes ++ rest /\
      (forall i, In i rest <-> position <= i /\ occursAt newline str i) /\
      ForallOrdPairs lt rest.
Proof.
induction n as [|n IH]; intros position indexes Hn;
  destruct (indexOf str newline position) as [idx|] eqn:Hi.
- apply index_bounds in Hi. simpl in Hi. lia.
- exists []. rewrite (newline_loop_done _ _ Hi), app_nil_r.
  repeat split; try constructor; try contradiction.
  intros [Hpos Hocc]. revert Hocc.
  apply indexOf_none_inv with (position := position);
    [discriminate | assumption | assumption].
- pose proof (index_bounds _ _ _ _ Hi) as [Hlo Hhi]. simpl in Hhi.
  destruct (IH (idx + 1) (indexes ++ [idx])) as (rest & Heq & Hmem & Hord);
    [lia|].
  exists (idx :: rest). rewrite (newline_loop_step _ _ _ Hi), Heq.
  rewrite <- app_assoc. split; [reflexivity|]. split.
  + intros i. simpl. rewrite Hmem. split.
    * intros [<- | [Hge Hocc]]; [|split; [lia | assumption]].
      split; [assumption|]. now apply index_correct1 in Hi.
    * intros [Hge Hocc].
      destruct (Nat.lt_trichotomy i idx) as [Hlt | [-> | Hgt]];
        [|now left | right; split; [lia | assumption]].
      exfalso. now apply (index_correct2 _ _ _ _ Hi i).
  + constructor; [|assumption].
    apply Forall_forall. intros i Hin. apply Hmem in Hin. lia.
- exists []. rewrite (newline_loop_done _ _ Hi), app_nil_r.
  repeat split; try constructor; try contradiction.
  intros [Hpos Hocc]. revert Hocc.
  apply indexOf_none_inv with (position := position);
    [discriminate | assumption | assumption].
Qed.

Lemma newline_indexes_spec :
  (forall i, In i (findNewlineIndexes str) <-> get i str = Some lineFeed) /\
  ForallOrdPairs lt (findNewlineIndexes str).
Proof.
destruct (newline_loop_spec (length str) 0 []) as (rest & Heq & Hmem & Hord);
  [lia|].
unfold findNewlineIndexes. rewrite Heq. simpl. split; [|assumption].
intros i. rewrite Hmem, occurs_newline_get. split; [tauto|].
intros H. split; [lia | assumption].
Qed.

End NewlineFacts.

(** X6: [findNewlineIndexes] returns exactly the indexes at which the string
    holds a line feed, each once and in increasing order. *)
Theorem newline_indexes_exact_and_increasing (str : string) :
  (forall i, In i (findNewlineIndexes str) <-> get i str = Some lineFeed) /\
  ForallOrdPairs lt (findNewlineIndexes str).
Proof.
destruct (newline_loop_spec str (length str) 0 [])
  as (rest & Heq & Hmem & Hord); [lia|].
unfold findNewlineIndexes. rewrite Heq. cbn [app].
split; [|exact Hord].
intros i. rewrite Hmem, occurs_newline_get.
split; [intros [_ H]; exact H | intros H; split; [lia | exact H]].
Qed.

Section LineCounting.

(** The elements of [l] below [x]. *)
Let below (x : nat) (l : list nat) : list nat :=
  filter (fun i => (i <? x)%nat) l.

(** The index after the last line feed of [l], or [d] without any. *)
Let afterLast (l : list nat) (d : Z) : Z :=
  last (map (fun i => (Z.of_nat i + 1)%Z) l) d.

Lemma last_cons_default {A} (a : A) (l : list A) (d : A) :
  last (a :: l) d = last l a.
Proof.
revert a d. induction l as [|b l IH]; intros a d; [reflexivity|].
change (last (a :: b :: l) d) with (last (b :: l) d).
now rewrite (IH b d), (IH b a).
Qed.

Lemma below_nil x l : Forall (fun i => x <= i) l -> below x l = [].
Proof.
induction 1 as [|i l Hi _ IH]; simpl; [reflexivity|].
apply Nat.ltb_ge in Hi. now rewrite Hi.
Qed.

Lemma ordered_filter {A} (R : A -> A -> Prop) (f : A -> bool) (l : list A) :
  ForallOrdPairs R l -> ForallOrdPairs R (filter f l).
Proof.
induction 1 as [|a l Ha Hl IH]; simpl; [constructor|].
destruct (f a); [|assumption]. constructor; [|assumption].
rewrite Forall_forall in *. intros x Hx. apply filter_In in Hx. now apply Ha.
Qed.

(** On increasing line-feed indexes and with [s <= e], the loop counts the
    indexes below [s] and below [e] and remembers the last of each. *)
Lemma countLines_increasing (s e : nat) (l : list nat) :
  s <= e ->
  ForallOrdPairs lt l ->
  forall sl so el eo,
    countLines (Z.of_nat s) (Z.of_nat e) (map Z.of_nat l)
      (mkCounters sl so el eo) =
    mkCounters (sl + Z.of_nat (List.length (below s l)))
               (afterLast (below s l) so)
               (el + Z.of_nat (List.length (below e l)))
               (afterLast (below e l) eo).
Proof.
intros Hse Hord.
induction Hord as [|x l Hx Hl IH]; intros sl so el eo.
- simpl. now rewrite !Z.add_0_r.
- cbn [map countLines].
  cbn [startLineNumLinesIntoText startOfLineIndex endLineNumLinesIntoText
       endOfLineIndex].
  assert (Forall (fun i => x <= i) l) as Hge
    by (eapply Forall_impl; [|exact Hx]; cbn; lia).
  destruct (Z.ltb_spec (Z.of_nat x) (Z.of_nat s)) as [Hxs | Hxs];
    destruct (Z.ltb_spec (Z.of_nat x) (Z.of_nat e)) as [Hxe | Hxe];
    try lia.
  + cbn [startLineNumLinesIntoText startOfLineIndex endLineNumLinesIntoText
         endOfLineIndex].
    rewrite IH. unfold below, afterLast in *. simpl filter.
    assert ((x <? s)%nat = true) as -> by (apply Nat.ltb_lt; lia).
    assert ((x <? e)%nat = true) as -> by (apply Nat.ltb_lt; lia).
    cbn [map List.length]. rewrite !last_cons_default.
    f_equal; lia.
  + rewrite IH. unfold below, afterLast in *. simpl filter.
    assert ((x <? s)%nat = false) as -> by (apply Nat.ltb_ge; lia).
    assert ((x <? e)%nat = true) as -> by (apply Nat.ltb_lt; lia).
    cbn [map List.length startLineNumLinesIntoText startOfLineIndex
         endLineNumLinesIntoText endOfLineIndex].
    rewrite !last_cons_default.
    f_equal; lia.
  + unfold afterLast.
    rewrite (below_nil s (x :: l)), (below_nil e (x :: l)).
    * simpl. now rewrite !Z.add_0_r.
    * constructor; [lia|]. eapply Forall_impl; [|exact Hge]. cbn; lia.
    * constructor; [lia|]. eapply Forall_impl; [|exact Hge]. cbn; lia.
Qed.

(** The last element of an increasing list is its greatest. *)
Lemma last_greatest (l : list nat) (d : nat) :
  ForallOrdPairs lt l -> forall i, In i l -> i <= last l d.
Proof.
induction 1 as [|a l Ha Hl IH]; intros i Hin; [contradiction|].
rewrite last_cons_default.
destruct l as [|b l]; [destruct Hin as [<- | []]; simpl; lia|].
rewrite (last_cons_default b l a), <- (last_cons_default b l d).
destruct Hin as [<- | Hin]; [|now apply IH].
inversion Ha as [|? ? Hab _]; subst.
specialize (IH b (or_introl eq_refl)). lia.
Qed.

Lemma last_in_or_default (l : list nat) (d : nat) :
  l = [] \/ In (last l d) l.
Proof.
destruct l as [|a l]; [now left | right].
destruct (exists_last (l := a :: l)) as (l' & x & ->); [discriminate|].
rewrite last_last. apply in_or_app. right. now left.
Qed.

Lemma afterLast_nat (l : list nat) :
  afterLast l 0%Z =
  match l with
  | [] => 0%Z
  | _ => (Z.of_nat (last l 0%nat) + 1)%Z
  end.
Proof.
unfold afterLast. destruct l as [|a l]; [reflexivity|].
destruct (exists_last (l := a :: l)) as (l' & x & ->); [discriminate|].
rewrite map_app. simpl map. rewrite !last_last.
destruct l'; reflexivity.
Qed.

(** The position that the counters give for index [i] of [str]. *)
Lemma counted_position (str : string) (i : nat) :
  positionOf str i
    {| line := Z.of_nat (List.length (below i (findNewlineIndexes str)));
       column := Z.of_nat i -
                 afterLast (below i (findNewlineIndexes str)) 0%Z |}.
Proof.
destruct (newline_indexes_spec str) as [Hmem Hord].
set (B := below i (findNewlineIndexes str)).
assert (forall k, In k B <-> k < i /\ get k str = Some lineFeed) as HB.
{ intros k. unfold B, below. rewrite filter_In, Hmem, Nat.ltb_lt. tauto. }
assert (ForallOrdPairs lt B) as HBord by now apply ordered_filter.
split.
- exists B. split; [assumption|]. split; [exact HB | reflexivity].
- cbn [column]. rewrite afterLast_nat.
  destruct (last_in_or_default B 0) as [HBnil | Hlast].
  + rewrite HBnil. exists i.
    split; [lia|]. split; [lia|]. split; [|lia].
    intros k _ Hk Hget. assert (In k B) as Hin by now apply HB.
    now rewrite HBnil in Hin.
  + pose proof (proj1 (HB _) Hlast) as [Hlt Hget].
    assert (afterLast_case :
              match B with
              | [] => 0%Z
              | _ :: _ => (Z.of_nat (last B 0%nat) + 1)%Z
              end = (Z.of_nat (last B 0%nat) + 1)%Z)
      by (destruct B; [contradiction | reflexivity]).
    rewrite afterLast_case.
    exists (i - last B 0 - 1).
    split; [lia|]. split; [lia|]. split.
    * intros k Hlo Hhi Hk.
      assert (In k B) as Hin by now apply HB.
      pose proof (last_greatest B 0 HBord k Hin). lia.
    * intros _. replace (i - (i - last B 0 - 1) - 1) with (last B 0) by lia.
      assumption.
Qed.

End LineCounting.

(** X7: for an index range [s <= e] of a text, run on the text's own line
    feed indexes, [indexesToSourceRange] gives for each end its line, the
    number of line feeds before the index, and its column, the distance from
    the character after the last line feed before the index, or from the
    start of the text. *)
Theorem relative_range_is_line_and_column
    (str filename : string) (s e : nat) :
  s <= e ->
  let r :=
    indexesToSourceRange (Z.of_nat s) (Z.of_nat e) filename
      (map Z.of_nat (findNewlineIndexes str)) in
  file r = filename /\
  positionOf str s (start r) /\
  positionOf str e (end_ r).
Proof.
intros Hse r. unfold r, indexesToSourceRange.
rewrite (countLines_increasing s e _ Hse
           (proj2 (newline_indexes_spec str))).
cbn [file start end_ startLineNumLinesIntoText startOfLineIndex
     endLineNumLinesIntoText endOfLineIndex].
rewrite !Z.add_0_l.
split; [reflexivity|]. split; apply counted_position.
Qed.

Lemma relative_range_is_line_and_column_witness :
  let r :=
    indexesToSourceRange (Z.of_nat 8) (Z.of_nat 11) "file.html"
      (map Z.of_nat (findNewlineIndexes twoLineText)) in
  file r = "file.html" /\
  positionOf twoLineText 8 (start r) /\
  positionOf twoLineText 11 (end_ r).
Proof.
apply (relative_range_is_line_and_column twoLineText "file.html" 8 11).
lia.
Defined.

(** ** More on the grammar validator *)

Section ValidatorFrame.

Lemma cleared_extends this r : extends this r -> cleared r = cleared this.
Proof.
intros (H1 & H2 & H3 & H4 & _). unfold cleared. now rewrite H1, H2, H3, H4.
Qed.

Lemma arguments_frame this args :
  Forall framed args ->
  forall t,
    cleared t = cleared this ->
    properties
      (fold_left
         (fun this' arg => _extractAndValidateSubExpression arg false this')
         args t) =
      properties t ++ flat_map (fun a => recorded this a false) args /\
    warnings
      (fold_left
         (fun this' arg => _extractAndValidateSubExpression arg false this')
         args t) =
      warnings t ++ flat_map (fun a => reported this a false) args.
Proof.
induction 1 as [|a args Ha _ IH]; intros t Ht; simpl.
- now rewrite !app_nil_r.
- destruct (IH (_extractAndValidateSubExpression a false t)) as [Hp Hw].
  + rewrite <- Ht. apply cleared_extends.
    apply _extractAndValidateSubExpression_extends.
  + rewrite Hp, Hw. destruct (Ha false t) as [Hp' Hw'].
    rewrite Hp', Hw'. unfold recorded, reported.
    rewrite Ht. now rewrite <- !app_assoc.
Qed.

(** What a call records and reports where calls are allowed: what its callee
    does, then what each argument does. *)
Lemma call_outputs_with this f args l :
  framed f -> Forall framed args ->
  recorded this (CallExpression f args l) true =
    recorded this f false ++ flat_map (fun a => recorded this a false) args /\
  reported this (CallExpression f args l) true =
    reported this f false ++ flat_map (fun a => reported this a false) args.
Proof.
intros Hf Hargs.
unfold recorded at 1, reported at 1.
cbn [_extractAndValidateSubExpression].
destruct (arguments_frame this args Hargs
            (_extractAndValidateSubExpression f false (cleared this)))
  as [-> ->]; [|split; reflexivity].
apply (cleared_extends (cleared this)).
apply _extractAndValidateSubExpression_extends.
Qed.

(** Validation reads nothing of what was pushed before. *)
Lemma validation_frame expression : framed expression.
Proof.
induction expression
  as [v l|n l|o p c l IHo _|f args l IHf IHargs|op a l _|k ch l _]
  using Node_nested_ind; intros callAllowed this;
  try (unfold recorded, reported; simpl; rewrite ?app_nil_r;
       split; reflexivity).
- unfold recorded, reported. simpl. apply IHo.
- destruct callAllowed;
    [|unfold recorded, reported; simpl; rewrite ?app_nil_r;
      split; reflexivity].
  destruct (call_outputs_with this f args l IHf IHargs) as [-> ->].
  cbn [_extractAndValidateSubExpression].
  destruct (arguments_frame this args IHargs
              (_extractAndValidateSubExpression f false this)
              (cleared_extends _ _
                 (_extractAndValidateSubExpression_extends f false this)))
    as [-> ->].
  destruct (IHf false this) as [-> ->].
  now rewrite <- !app_assoc.
Qed.

Lemma call_outputs this f args l :
  recorded this (CallExpression f args l) true =
    recorded this f false ++ flat_map (fun a => recorded this a false) args /\
  reported this (CallExpression f args l) true =
    reported this f false ++ flat_map (fun a => reported this a false) args.
Proof.
apply call_outputs_with; [apply validation_frame|].
apply Forall_forall. intros a _. apply validation_frame.
Qed.

End ValidatorFrame.

Section ValidatorGrammar.

Lemma flat_map_nil {A B} (f : A -> list B) (l : list A) :
  flat_map f l = [] <-> Forall (fun a => f a = []) l.
Proof.
induction l as [|a l IH]; simpl.
- split; [constructor | reflexivity].
- split.
  + intros H. apply app_eq_nil in H as [Ha Hl].
    constructor; [assumption | now apply IH].
  + intros H. inversion H as [|? ? Ha Hl]; subst.
    rewrite Ha. now apply IH.
Qed.

Lemma binding_member_inv o p c l :
  BindingExpression (MemberExpression o p c l) <-> PathExpression o.
Proof.
split.
- intros H. inversion H as [e Hp|]; subst. now inversion Hp.
- intros H. now do 2 constructor.
Qed.

Lemma binding_call_inv f args l :
  BindingExpression (CallExpression f args l) <->
  PathExpression f /\ Forall PathExpression args.
Proof.
split.
- intros H. inversion H as [e Hp|]; subst; [inversion Hp | now split].
- intros [Hf Hargs]. now apply binding_call.
Qed.

(** Validation reports nothing exactly on the accepted expressions. *)
Lemma reported_nil_iff expression :
  forall callAllowed this,
    reported this expression callAllowed = [] <->
    if callAllowed then BindingExpression expression
    else PathExpression expression.
Proof.
induction expression
  as [v l|n l|o p c l IHo _|f args l IHf IHargs|op a l _|k ch l _]
  using Node_nested_ind; intros callAllowed this.
- unfold reported; simpl.
  destruct callAllowed; split; auto; intros _; repeat constructor.
- unfold reported; simpl.
  destruct callAllowed; split; auto; intros _; repeat constructor.
- change (reported this (MemberExpression o p c l) callAllowed)
    with (reported this o false).
  rewrite (IHo false this).
  destruct callAllowed; [now rewrite binding_member_inv|].
  split; [now constructor | now inversion 1].
- destruct callAllowed.
  + destruct (call_outputs this f args l) as [_ ->].
    rewrite binding_call_inv. split.
    * intros H. apply app_eq_nil in H as [Hf Hargs].
      split; [now apply (IHf false this)|].
      apply flat_map_nil in Hargs.
      rewrite Forall_forall in *. intros a Hin.
      apply (IHargs a Hin false this). now apply Hargs.
    * intros [Hf Hargs].
      apply (IHf false this) in Hf. rewrite Hf. simpl.
      apply flat_map_nil.
      rewrite Forall_forall in *. intros a Hin.
      apply (IHargs a Hin false this). now apply Hargs.
  + unfold reported; simpl. split; [discriminate | now inversion 1].
- unfold reported; simpl. destruct callAllowed;
    (split; [discriminate|]); intros H;
    [inversion H as [e Hp|]; subst; inversion Hp | inversion H].
- unfold reported; simpl. destruct callAllowed;
    (split; [discriminate|]); intros H;
    [inversion H as [e Hp|]; subst; inversion Hp | inversion H].
Qed.

(** Every warning that validation reports is a validation warning. *)
Lemma reported_are_validation_warnings expression :
  forall callAllowed this,
    Forall
      (fun w =>
         Warning.code w = "invalid-polymer-expression" /\
         Warning.severity w = WARNING)
      (reported this expression callAllowed).
Proof.
induction expression
  as [v l|n l|o p c l IHo _|f args l IHf IHargs|op a l _|k ch l _]
  using Node_nested_ind; intros callAllowed this;
  try (unfold reported; simpl; repeat constructor; fail).
- apply (IHo false this).
- destruct callAllowed; [|unfold reported; simpl; repeat constructor].
  destruct (call_outputs this f args l) as [_ ->].
  apply Forall_app. split; [apply IHf|].
  apply Forall_flat_map. eapply Forall_impl; [|exact IHargs].
  intros a Ha. apply Ha.
Qed.

End ValidatorGrammar.

(** X8: where a call is allowed, validating [f(args)] records the
    properties of the callee and then those of each argument, and reports
    the warnings of the callee and then those of each argument, each as it
    would be on its own: an argument that is rejected does not keep the
    others from being validated. *)
Theorem call_arguments_validate_independently
    (this : DatabindingExpression) (f : Node) (args : list Node)
    (l : option SourceLocation) :
  let r := _extractAndValidateSubExpression (CallExpression f args l) true
             this in
  properties r =
    properties this ++ recorded this f false ++
    flat_map (fun a => recorded this a false) args /\
  warnings r =
    warnings this ++ reported this f false ++
    flat_map (fun a => reported this a false) args.
Proof.
cbv zeta.
destruct (validation_frame (CallExpression f args l) true this) as [-> ->].
now destruct (call_outputs this f args l) as [-> ->].
Qed.

(** X9: the constructor leaves [warnings] empty exactly for the programs of
    the supported grammar: one expression statement whose expression,
    possibly under one logical not, is a literal, an identifier or a member
    access chain on one of them, or a single call of such a chain on such
    chains. *)
Theorem no_warning_iff_supported_program
    (range : SourceRange) (text : string) (program : Program) :
  warnings (newDatabindingExpression range text program) = [] <->
  SupportedProgram program.
Proof.
unfold newDatabindingExpression, _extractPropertiesAndValidate, SupportedProgram.
cbn [_expressionAst].
set (this := mkExpression range [] text program _ []).
destruct (body program) as [|s [|s' rest]].
- simpl. split; [discriminate | intros (e & l & H & _); discriminate H].
- destruct s as [e l|k l].
  + assert (forall a, warnings (_extractAndValidateSubExpression a true this)
                      = [] <-> BindingExpression a) as Hsub.
    { intros a.
      destruct (validation_frame a true this) as [_ ->].
      apply (reported_nil_iff a true this). }
    assert ((exists e0 l0,
                [ExpressionStatement e l] = [ExpressionStatement e0 l0] /\
                (BindingExpression e0 \/
                 exists a l',
                   e0 = UnaryExpression "!" a l' /\ BindingExpression a)) <->
            (BindingExpression e \/
             exists a l',
               e = UnaryExpression "!" a l' /\ BindingExpression a))
      as Hshape.
    { split.
      - intros (e0 & l0 & [= <- <-] & H). exact H.
      - intros H. exists e, l. split; [reflexivity | exact H]. }
    rewrite Hshape. clear Hshape.
    destruct e as [v le|n le|o p c le|f args le|op a le|k ch le];
      try (split;
           [intros H; left; now apply Hsub
           |intros [H | (a' & la & Ha & _)];
            [now apply Hsub | discriminate Ha]]).
    destruct (op =? "!") eqn:Hop.
    * apply eqb_eq in Hop. subst op. split.
      -- intros H. right. exists a, le. split; [reflexivity|].
         now apply Hsub.
      -- intros [H | (a' & la & [= <- <-] & H)]; [|now apply Hsub].
         inversion H as [e Hp|]; subst; inversion Hp.
    * apply eqb_neq in Hop. simpl. split; [discriminate|].
      intros [H | (a' & la & [= Hopeq _ _] & _)].
      -- inversion H as [e Hp|]; subst; inversion Hp.
      -- exfalso. now apply Hop.
  + simpl. split; [discriminate | intros (e & l' & H & _); discriminate H].
- simpl. split; [discriminate | intros (e & l & H & _); discriminate H].
Qed.

(** X10: whatever the program, every warning the constructor leaves in
    [warnings] has the code [invalid-polymer-expression] and the severity
    WARNING. *)
Theorem constructor_warnings_are_validation_warnings
    (range : SourceRange) (text : string) (program : Program) :
  Forall
    (fun w =>
       Warning.code w = "invalid-polymer-expression" /\
       Warning.severity w = WARNING)
    (warnings (newDatabindingExpression range text program)).
Proof.
unfold newDatabindingExpression, _extractPropertiesAndValidate.
cbn [_expressionAst].
set (this := mkExpression range [] text program _ []).
assert (forall a,
           Forall
             (fun w =>
                Warning.code w = "invalid-polymer-expression" /\
                Warning.severity w = WARNING)
             (warnings (_extractAndValidateSubExpression a true this)))
  as Hsub.
{ intros a. destruct (validation_frame a true this) as [_ ->].
  apply (reported_are_validation_warnings a true this). }
destruct (body program) as [|s [|s' rest]];
  try (simpl; repeat constructor; fail).
destruct s as [e l|k l]; [|simpl; repeat constructor].
destruct e as [v le|n le|o p c le|f args le|op a le|k ch le];
  try apply Hsub.
destruct (op =? "!"); [apply Hsub | simpl; repeat constructor].
Qed.

(** ** More on [parseExpression] *)

Section SubPropertyPattern.

Lemma subPropertyTest_spec content :
  subPropertyTest content = true <-> HoldsSubProperty content.
Proof.
unfold HoldsSubProperty.
induction content as [|a rest IH].
- split; [discriminate | intros (i & c & H & _); destruct i; discriminate H].
- cbn [subPropertyTest]. rewrite orb_true_iff, andb_true_iff, IH. split.
  + intros [[Ha Hd] | (i & c & H1 & H2 & H3)].
    * apply Ascii.eqb_eq in Ha. subst a.
      destruct rest as [|d rest']; [discriminate|].
      exists 0, d. repeat split.
      apply orb_true_iff in Hd as [Hd | Hd]; [|now right].
      left. now apply Ascii.eqb_eq in Hd.
    * exists (S i), c. now repeat split.
  + intros (i & c & H1 & H2 & H3). destruct i as [|i].
    * left. simpl in H1, H2. injection H1 as ->.
      destruct rest as [|d rest']; [discriminate|].
      simpl in H2. injection H2 as ->.
      split; [reflexivity|]. apply orb_true_iff.
      destruct H3 as [-> | H3]; [now left | now right].
    * right. exists i, c. now repeat split.
Qed.

End SubPropertyPattern.

(** X11: [parseExpression] returns [undefined] exactly when the parser
    rejects the text and the text holds, anywhere, a dot followed by a star
    or a digit; in every other case it returns the parser's result as it
    is. *)
Theorem parse_expression_undefined_iff
    (parseJs : string -> string -> LocationOffset -> string -> ParseResult)
    (content : string) (range : SourceRange) :
  let parsed :=
    parseJs content (file range)
      {| offset_line := line (start range);
         offset_col := column (start range) |}
      "polymer-expression-parse-error" in
  (parseExpression parseJs content range = None <->
   (exists warning, parsed = failure warning) /\ HoldsSubProperty content) /\
  (forall result,
      parseExpression parseJs content range = Some result ->
      result = parsed).
Proof.
cbv zeta. unfold parseExpression. cbv zeta.
destruct (parseJs content (file range) _ _) as [program|warning] eqn:Hp.
- split; [|now intros result [= <-]].
  split; [discriminate | intros [[w Hw] _]; discriminate Hw].
- destruct (subPropertyTest content) eqn:Ht.
  + split; [|discriminate]. split; [|reflexivity].
    intros _. split; [now exists warning | now apply subPropertyTest_spec].
  + split; [|now intros result [= <-]].
    split; [discriminate|]. intros [_ Hs].
    apply subPropertyTest_spec in Hs. congruence.
Qed.

(** ** More on the extractors *)

Section TextNodeFacts.

Variable parseJs : string -> string -> LocationOffset -> string -> ParseResult.

Lemma text_expression_origin document node x :
  In x (fst (extractDataBindingsFromTextNode parseJs document node ([], []))) ->
  exists b range program,
    In b (findDatabindingInString (textOf node)) /\
    ParsedHtmlDocument.sourceRangeForNode document node = Some range /\
    parseExpression parseJs (rawExpressionText b)
      (bindingSourceRange range (findNewlineIndexes (textOf node)) b) =
      Some (success program) /\
    x = TextNodeExpression
          (mkTextNodeExpression
             (newDatabindingExpression
                (bindingSourceRange range
                   (findNewlineIndexes (textOf node)) b)
                (rawExpressionText b) program)
             (rawDirection b) node).
Proof.
unfold extractDataBindingsFromTextNode. fold (textOf node).
destruct (findDatabindingInString (textOf node)) as [|b0 bs] eqn:Hscan;
  [intros []|].
destruct (ParsedHtmlDocument.sourceRangeForNode document node) as [range|];
  [|intros []].
rewrite (fold_left_appends _ (textNodeBindingStep_appends parseJs _ _ _)).
cbn [fst snd app]. intros Hin.
apply in_flat_map in Hin as (b & Hb & Hin).
rewrite textNodeBindingStep_unfold in Hin.
destruct (parseExpression _ _ _) as [[program|warning]|] eqn:Hparse;
  simpl in Hin; try contradiction.
destruct Hin as [<- | []].
now exists b, range, program.
Qed.

End TextNodeFacts.

(** X12: every expression that extraction from a text node returns is a
    text-node expression for that node, made from a raw binding of the
    node's text whose text the parser accepted: it has the binding's
    direction, the binding's text verbatim and the binding's range. *)
Theorem text_expressions_come_from_bindings
    (parseJs : string -> string -> LocationOffset -> string -> ParseResult)
    (document : ParsedHtmlDocument.t) (node : ASTNode)
    (x : HtmlDatabindingExpression) :
  In x (fst (extractDataBindingsFromTextNode parseJs document node ([], []))) ->
  exists b range program e,
    In b (findDatabindingInString (textOf node)) /\
    ParsedHtmlDocument.sourceRangeForNode document node = Some range /\
    parseExpression parseJs (rawExpressionText b)
      (bindingSourceRange range (findNewlineIndexes (textOf node)) b) =
      Some (success program) /\
    x = TextNodeExpression e /\
    textNode_astNode e = node /\
    textNode_direction e = rawDirection b /\
    expressionText (textNode_base e) = rawExpressionText b /\
    sourceRange (textNode_base e) =
      bindingSourceRange range (findNewlineIndexes (textOf node)) b /\
    _expressionAst (textNode_base e) = program.
Proof.
intros Hin.
apply text_expression_origin in Hin
  as (b & range & program & Hb & Hrange & Hparse & ->).
exists b, range, program. eexists. repeat split; try eassumption;
  cbn [textNode_base]; apply newDatabindingExpression_fields.
Qed.

Lemma text_expressions_come_from_bindings_witness :
  exists b range program e,
    In b (findDatabindingInString (textOf (textNode "a {{foo}} b"))) /\
    ParsedHtmlDocument.sourceRangeForNode (documentAt 3 9)
      (textNode "a {{foo}} b") = Some range /\
    parseExpression (tableParser sampleTable) (rawExpressionText b)
      (bindingSourceRange range
         (findNewlineIndexes (textOf (textNode "a {{foo}} b"))) b) =
      Some (success program) /\
    TextNodeExpression
      (mkTextNodeExpression
         (newDatabindingExpression
            (mkRange "file.html" (mkPosition 3 13) (mkPosition 3 16))
            "foo" (identifierProgram "foo"))
         Mustache (textNode "a {{foo}} b")) = TextNodeExpression e /\
    textNode_astNode e = textNode "a {{foo}} b" /\
    textNode_direction e = rawDirection b /\
    expressionText (textNode_base e) = rawExpressionText b /\
    sourceRange (textNode_base e) =
      bindingSourceRange range
        (findNewlineIndexes (textOf (textNode "a {{foo}} b"))) b /\
    _expressionAst (textNode_base e) = program.
Proof.
apply (text_expressions_come_from_bindings (tableParser sampleTable)
         (documentAt 3 9) (textNode "a {{foo}} b")).
left. reflexivity.
Defined.

Section EventNamePresence.

Lemma substring_zero_length j s : substring j 0 s = "".
Proof.
revert j. induction s as [|c s IH]; intros [|j]; simpl; auto.
Qed.

(** An occurrence in a string is an occurrence in any extension of it. *)
Lemma substring_in_prefix a b :
  forall j n x,
    substring j n a = x -> length x = n -> substring j n (a ++ b) = x.
Proof.
induction a as [|c a IH]; intros j n x Hsub Hlen.
- rewrite substring_empty in Hsub. subst x. simpl in Hlen. subst n.
  apply substring_zero_length.
- destruct j as [|j]; [|apply (IH j n x Hsub Hlen)].
  destruct n as [|n].
  + rewrite substring_zero_length in Hsub. subst x. reflexivity.
  + simpl in Hsub |- *. subst x. simpl in Hlen. injection Hlen as Hlen.
    f_equal. now apply IH.
Qed.

Lemma takeLine_prefix s : exists rest, s = (takeLine s ++ rest)%string.
Proof.
induction s as [|c s [rest IH]]; [now exists ""|].
simpl. destruct (isLineTerminator c).
- now exists (String c s).
- exists rest. simpl. now rewrite <- IH.
Qed.

Lemma occurs_in_line s x j :
  occursAt x (takeLine s) j -> occursAt x s j.
Proof.
unfold occursAt. intros H.
destruct (takeLine_prefix s) as [rest Hs]. rewrite Hs at 1.
now apply substring_in_prefix.
Qed.

Lemma separator_at_line_start s :
  occursAt "::" s 0 -> occursAt "::" (takeLine s) 0.
Proof.
unfold occursAt. simpl length.
destruct s as [|a [|b r]]; try discriminate.
cbn [substring]. intros H. injection H as -> -> _.
cbn [takeLine isLineTerminator]. simpl.
now replace (substring 0 0 (takeLine r)) with "" by now destruct (takeLine r).
Qed.

Lemma matchEventName_none s :
  matchEventName s = None -> forall j, ~ occursAt "::" s j.
Proof.
induction s as [|c s IH]; intros Hnone j.
- unfold occursAt. now rewrite substring_empty.
- cbn [matchEventName] in Hnone.
  destruct (matchEventNameHere (String c s)) as [g|] eqn:Hhere;
    [discriminate|].
  destruct j as [|j]; [|apply (IH Hnone j)].
  intros Hocc. apply separator_at_line_start in Hocc.
  now apply (splitAtLastSeparator_none _ Hhere 0).
Qed.

Lemma matchEventName_some s g :
  matchEventName s = Some g -> exists j, occursAt "::" s j.
Proof.
induction s as [|c s IH]; [discriminate|].
cbn [matchEventName].
destruct (matchEventNameHere (String c s)) as [[g1 g2]|] eqn:Hhere.
- intros _. exists (length g1). apply occurs_in_line.
  now apply splitAtLastSeparator_last in Hhere.
- intros H. destruct (IH H) as [j Hj]. now exists (S j).
Qed.

End EventNamePresence.

(** X13: an attribute expression of a bracket binding never has an event
    name, and its expression text is the text of a raw binding of the
    attribute's value, unchanged. *)
Theorem bracket_bindings_have_no_event_name
    (parseJs : string -> string -> LocationOffset -> string -> ParseResult)
    (document : ParsedHtmlDocument.t) (node : ASTNode) (attr : ASTAttribute)
    (e : AttributeDatabindingExpression) :
  In (AttributeExpression e)
    (fst (extractDataBindingsFromAttr parseJs document node attr ([], []))) ->
  attribute_direction e = Bracket ->
  eventName e = None /\
  exists b,
    In b (findDatabindingInString (attr_value attr)) /\
    rawDirection b = Bracket /\
    expressionText (attribute_base e) = rawExpressionText b.
Proof.
intros Hin Hdir.
apply attribute_expression_origin in Hin as (b & range & program & Hb & ->).
cbn [attribute_direction eventName attribute_base] in *.
unfold splitEventName in *. rewrite Hdir in *.
split; [reflexivity|]. exists b. repeat split; try assumption.
apply newDatabindingExpression_fields.
Qed.

Lemma bracket_bindings_have_no_event_name_witness :
  eventName
    (mkAttributeExpression
       (newDatabindingExpression
          (mkRange "file.html" (mkPosition 3 11) (mkPosition 3 14))
          "val" (identifierProgram "val"))
       (element "div" [mkAttr "foo" "[[val]]"]) true Bracket None
       (mkAttr "foo" "[[val]]")) = None /\
  exists b,
    In b (findDatabindingInString "[[val]]") /\
    rawDirection b = Bracket /\
    "val" = rawExpressionText b.
Proof.
apply (bracket_bindings_have_no_event_name (tableParser sampleTable)
         (documentAt 3 9) (element "div" [mkAttr "foo" "[[val]]"])
         (mkAttr "foo" "[[val]]")
         (mkAttributeExpression
            (newDatabindingExpression
               (mkRange "file.html" (mkPosition 3 11) (mkPosition 3 14))
               "val" (identifierProgram "val"))
            (element "div" [mkAttr "foo" "[[val]]"]) true Bracket None
            (mkAttr "foo" "[[val]]"))).
- left. reflexivity.
- reflexivity.
Defined.

Section AttributeContributions.

Variable parseJs : string -> string -> LocationOffset -> string -> ParseResult.

(** The expressions of an attribute are those of its bindings, one binding
    after the other; an empty value has no binding. *)
Lemma attribute_expressions_by_binding document node attr range :
  ParsedHtmlDocument.sourceRangeForAttributeValue document node
    (attr_name attr) true = Some range ->
  fst (extractDataBindingsFromAttr parseJs document node attr ([], [])) =
  flat_map
    (fun b =>
       fst (attrBindingStep parseJs node attr range
              (findNewlineIndexes (attr_value attr)) ([], []) b))
    (findDatabindingInString (attr_value attr)).
Proof.
intros Hrange. unfold extractDataBindingsFromAttr.
destruct (attr_value attr =? "") eqn:Hvalue.
- apply eqb_eq in Hvalue. now rewrite Hvalue.
- rewrite Hrange.
  now rewrite (fold_left_appends _ (attrBindingStep_appends parseJs _ _ _ _)).
Qed.

(** What the body of the attribute loop yields for one binding, when it
    yields anything. *)
Lemma attribute_binding_expression node attr range newlineIndexes b x :
  In x (fst (attrBindingStep parseJs node attr range newlineIndexes
               ([], []) b)) ->
  exists program,
    x = AttributeExpression
          (mkAttributeExpression
             (newDatabindingExpression
                (bindingSourceRange range newlineIndexes b)
                (fst (splitEventName b)) program)
             node
             ((startIndex b =? 2)%nat &&
              (endIndex b + 2 =? length (attr_value attr))%nat)
             (rawDirection b) (snd (splitEventName b)) attr).
Proof.
rewrite attrBindingStep_unfold.
destruct (parseExpression _ _ _) as [[program|warning]|];
  simpl; try contradiction.
intros [<- | []]. now exists program.
Qed.

End AttributeContributions.

(** X14: the expressions that extraction from an attribute returns are what
    the loop body yields for each raw binding of the attribute's value, in
    the order of the bindings; and what the body yields for a binding is an
    attribute expression with the binding's direction and the binding's
    source range, which has an event name exactly when that same binding is
    a mustache binding whose text holds the separator [::] somewhere, on
    whatever line. *)
Theorem event_name_iff_mustache_with_separator
    (parseJs : string -> string -> LocationOffset -> string -> ParseResult)
    (document : ParsedHtmlDocument.t) (node : ASTNode) (attr : ASTAttribute)
    (range : SourceRange) :
  ParsedHtmlDocument.sourceRangeForAttributeValue document node
    (attr_name attr) true = Some range ->
  let newlineIndexes := findNewlineIndexes (attr_value attr) in
  let yields b :=
    fst (attrBindingStep parseJs node attr range newlineIndexes ([], []) b) in
  fst (extractDataBindingsFromAttr parseJs document node attr ([], [])) =
    flat_map yields (findDatabindingInString (attr_value attr)) /\
  forall b x,
    In x (yields b) ->
    exists e,
      x = AttributeExpression e /\
      attribute_direction e = rawDirection b /\
      sourceRange (attribute_base e) =
        bindingSourceRange range newlineIndexes b /\
      ((exists event, eventName e = Some event) <->
       rawDirection b = Mustache /\
       exists j, occursAt "::" (rawExpressionText b) j).
Proof.
intros Hrange newlineIndexes yields.
split; [now apply attribute_expressions_by_binding|].
intros b x Hin.
apply attribute_binding_expression in Hin as [program ->].
eexists. split; [reflexivity|].
cbn [attribute_direction eventName attribute_base].
split; [reflexivity|]. split; [apply newDatabindingExpression_fields|].
unfold splitEventName. destruct (rawDirection b).
- destruct (matchEventName (rawExpressionText b)) as [[g1 g2]|] eqn:Hm;
    cbn [snd].
  + split; [|intros _; now exists g2].
    intros _. split; [reflexivity|]. now apply matchEventName_some in Hm.
  + split; [intros [event H]; discriminate H|].
    intros [_ [j Hj]]. exfalso. now apply (matchEventName_none _ Hm j).
- cbn [snd]. split; [intros [event H]; discriminate H|].
  intros [H _]. discriminate H.
Qed.

Lemma event_name_iff_mustache_with_separator_witness :
  let attr := mkAttr "foo" "{{val::changed}} {{foo}}" in
  let node := element "div" [attr] in
  let range := mkRange "file.html" (mkPosition 3 9) (mkPosition (3 + 1) 0) in
  let first := mkRawDatabinding "val::changed" 2 14 Mustache in
  let second := mkRawDatabinding "foo" 19 22 Mustache in
  let yields b :=
    fst (attrBindingStep (tableParser sampleTable) node attr range
           (findNewlineIndexes (attr_value attr)) ([], []) b) in
  findDatabindingInString (attr_value attr) = [first; second] /\
  fst (extractDataBindingsFromAttr (tableParser sampleTable) (documentAt 3 9)
         node attr ([], [])) = yields first ++ yields second /\
  (exists e1,
      yields first = [AttributeExpression e1] /\
      eventName e1 = Some "changed" /\
      rawDirection first = Mustache /\
      exists j, occursAt "::" (rawExpressionText first) j) /\
  (exists e2,
      yields second = [AttributeExpression e2] /\
      eventName e2 = None /\
      ~ (rawDirection second = Mustache /\
         exists j, occursAt "::" (rawExpressionText second) j)).
Proof.
cbv zeta.
pose proof (event_name_iff_mustache_with_separator (tableParser sampleTable)
              (documentAt 3 9)
              (element "div" [mkAttr "foo" "{{val::changed}} {{foo}}"])
              (mkAttr "foo" "{{val::changed}} {{foo}}")
              (mkRange "file.html" (mkPosition 3 9) (mkPosition (3 + 1) 0))
              eq_refl) as [Hall Hone].
cbv zeta in Hall, Hone.
split; [reflexivity|]. split; [rewrite Hall; reflexivity|]. split.
- destruct (Hone (mkRawDatabinding "val::changed" 2 14 Mustache) _
              (or_introl eq_refl)) as (e & He & _ & _ & Hiff).
  injection He as <-. eexists. split; [reflexivity|].
  split; [reflexivity|]. apply Hiff. now eexists.
- destruct (Hone (mkRawDatabinding "foo" 19 22 Mustache) _
              (or_introl eq_refl)) as (e & He & _ & _ & Hiff).
  injection He as <-. eexists. split; [reflexivity|].
  split; [reflexivity|].
  intros H. apply Hiff in H as [event H]. discriminate H.
Defined.

(** X15: the strings of this development are sequences of one-byte
    characters, so the only line terminators that a text can hold are the
    line feed and the carriage return.  For a mustache binding whose text
    holds neither of the two, what the loop body of the attribute extractor
    yields for that binding is an attribute expression whose text and event
    name are the two sides of the last [::] of the binding's text; without
    any [::] the expression text is the binding's text, whole, and there is
    no event name.  The expressions that extraction from the attribute
    returns are what the body yields for each binding, in the order of the
    bindings. *)
Theorem single_line_event_name_split
    (parseJs : string -> string -> LocationOffset -> string -> ParseResult)
    (document : ParsedHtmlDocument.t) (node : ASTNode) (attr : ASTAttribute)
    (range : SourceRange) :
  ParsedHtmlDocument.sourceRangeForAttributeValue document node
    (attr_name attr) true = Some range ->
  let newlineIndexes := findNewlineIndexes (attr_value attr) in
  let yields b :=
    fst (attrBindingStep parseJs node attr range newlineIndexes ([], []) b) in
  fst (extractDataBindingsFromAttr parseJs document node attr ([], [])) =
    flat_map yields (findDatabindingInString (attr_value attr)) /\
  forall b x,
    rawDirection b = Mustache ->
    noLineTerminator (rawExpressionText b) = true ->
    In x (yields b) ->
    exists e,
      x = AttributeExpression e /\
      attribute_direction e = Mustache /\
      sourceRange (attribute_base e) =
        bindingSourceRange range newlineIndexes b /\
      match eventName e with
      | Some event =>
          rawExpressionText b =
            (expressionText (attribute_base e) ++ "::" ++ event)%string /\
          forall j,
            length (expressionText (attribute_base e)) < j ->
            ~ occursAt "::" (rawExpressionText b) j
      | None =>
          expressionText (attribute_base e) = rawExpressionText b /\
          forall j, ~ occursAt "::" (rawExpressionText b) j
      end.
Proof.
intros Hrange newlineIndexes yields.
split; [now apply attribute_expressions_by_binding|].
intros b x Hdir Hline Hin.
apply attribute_binding_expression in Hin as [program ->].
eexists. split; [reflexivity|].
cbn [attribute_direction eventName attribute_base].
split; [assumption|].
destruct (newDatabindingExpression_fields
            (bindingSourceRange range newlineIndexes b)
            (fst (splitEventName b)) program) as (-> & -> & _).
split; [reflexivity|].
pose proof (splitEventName_single_line b Hline) as Hsplit.
rewrite Hdir in Hsplit.
destruct (splitEventName b) as [text [event|]]; exact Hsplit.
Qed.

Lemma single_line_event_name_split_witness :
  let attr := mkAttr "foo" "{{val::changed}} {{foo}}" in
  let node := element "div" [attr] in
  let range := mkRange "file.html" (mkPosition 3 9) (mkPosition (3 + 1) 0) in
  let first := mkRawDatabinding "val::changed" 2 14 Mustache in
  let yields b :=
    fst (attrBindingStep (tableParser sampleTable) node
           attr range (findNewlineIndexes (attr_value attr)) ([], []) b) in
  findDatabindingInString (attr_value attr) =
    [first; mkRawDatabinding "foo" 19 22 Mustache] /\
  exists e,
    yields first = [AttributeExpression e] /\
    attribute_direction e = Mustache /\
    expressionText (attribute_base e) = "val" /\
    eventName e = Some "changed" /\
    rawExpressionText first =
      (expressionText (attribute_base e) ++ "::" ++ "changed")%string /\
    forall j,
      length (expressionText (attribute_base e)) < j ->
      ~ occursAt "::" (rawExpressionText first) j.
Proof.
cbv zeta.
pose proof (proj2 (single_line_event_name_split
                     (tableParser sampleTable)
                     (documentAt 3 9)
                     (element "div" [mkAttr "foo" "{{val::changed}} {{foo}}"])
                     (mkAttr "foo" "{{val::changed}} {{foo}}")
                     (mkRange "file.html" (mkPosition 3 9)
                        (mkPosition (3 + 1) 0))
                     eq_refl)
              (mkRawDatabinding "val::changed" 2 14 Mustache) _
              eq_refl eq_refl (or_introl eq_refl)) as (e & He & Hdir & _ & H).
injection He as <-.
split; [reflexivity|]. eexists. split; [reflexivity|].
split; [exact Hdir|]. split; [reflexivity|]. split; [reflexivity|].
cbn [eventName] in H. exact H.
Defined.

(** X16: a text node or an attribute whose text holds no opener leaves both
    output sequences as they were, whatever the document and the parser
    are. *)
Theorem text_without_opener_yields_nothing
    (parseJs : string -> string -> LocationOffset -> string -> ParseResult)
    (document : ParsedHtmlDocument.t) (node : ASTNode) (attr : ASTAttribute)
    (out : Output) :
  ((forall j, ~ opensAt (textOf node) j) ->
   extractDataBindingsFromTextNode parseJs document node out = out) /\
  ((forall j, ~ opensAt (attr_value attr) j) ->
   extractDataBindingsFromAttr parseJs document node attr out = out).
Proof.
split; intros Hno.
- unfold extractDataBindingsFromTextNode. fold (textOf node).
  now rewrite (no_opener_no_binding _ Hno).
- unfold extractDataBindingsFromAttr.
  rewrite (no_opener_no_binding _ Hno).
  destruct (attr_value attr =? ""); [reflexivity|].
  now destruct (ParsedHtmlDocument.sourceRangeForAttributeValue _ _ _ _).
Qed.

Lemma text_without_opener_yields_nothing_witness :
  extractDataBindingsFromTextNode (tableParser sampleTable) (documentAt 3 9)
    (textNode "no {binding} here") ([], []) = ([], []).
Proof.
apply (proj1 (text_without_opener_yields_nothing (tableParser sampleTable)
                (documentAt 3 9) (textNode "no {binding} here")
                (mkAttr "title" "") ([], []))).
intros j [H|H].
- apply (indexOf_none_inv _ "{{" 0) with (j := j) in H;
    [assumption | discriminate | reflexivity | lia].
- apply (indexOf_none_inv _ "[[" 0) with (j := j) in H;
    [assumption | discriminate | reflexivity | lia].
Defined.

(** ** The string-literal entry point *)

(** X17: when [parseExpressionInJsStringLiteral] returns, it returns at most
    one warning, and never a warning together with an expression: the
    warnings that validation gives the expression stay in the expression.
    A returned expression belongs to a string literal, has the literal as
    its node and the literal's string as its text, and its range is the
    literal's range with one column taken off each end. *)
Theorem js_literal_result_shape
    (parseJs : string -> string -> LocationOffset -> string -> ParseResult)
    (document : JavaScriptDocument.t) (stringLiteral : Node)
    (result : JsLiteralResult) :
  parseExpressionInJsStringLiteral parseJs document stringLiteral =
    Some result ->
  (List.length (literal_warnings result) <= 1)%nat /\
  forall d,
    databinding result = Some d ->
    literal_warnings result = [] /\
    javascript_astNode d = stringLiteral /\
    exists text loc range,
      stringLiteral = Literal (LString text) loc /\
      JavaScriptDocument.sourceRangeForNode document stringLiteral =
        Some range /\
      expressionText (javascript_base d) = text /\
      sourceRange (javascript_base d) =
        {| file := file range;
           start := {| line := line (start range);
                       column := column (start range) + 1 |};
           end_ := {| line := line (end_ range);
                      column := column (end_ range) - 1 |} |}.
Proof.
unfold parseExpressionInJsStringLiteral. cbv zeta.
destruct stringLiteral as [v l|n l|o p c l|f args l|op a l|k ch l];
  try (intros [= <-]; split; [simpl; lia | intros d H; discriminate H]).
destruct v as [text|n|b| |];
  try (intros [= <-]; split; [simpl; lia | intros d H; discriminate H]).
destruct (JavaScriptDocument.sourceRangeForNode document _) as [range|] eqn:Hr;
  [|discriminate].
destruct (parseExpression parseJs text _) as [[program|warning]|];
  intros [= <-]; (split; [simpl; lia|]); intros d H; try discriminate H.
cbn [databinding] in H. injection H as <-.
cbn [literal_warnings javascript_astNode javascript_base].
split; [reflexivity|]. split; [reflexivity|].
exists text, l, range. repeat split;
  apply newDatabindingExpression_fields.
Qed.

Lemma js_literal_result_shape_witness :
  let literal := Literal (LString "a && b") None in
  let document :=
    JavaScriptDocument.make
      (fun _ => Some (mkRange "file.js" (mkPosition 4 10) (mkPosition 4 18))) in
  exists d,
    parseExpressionInJsStringLiteral (tableParser sampleTable) document
      literal = Some (mkJsLiteralResult (Some d) []) /\
    List.length (warnings (javascript_base d)) = 1%nat /\
    sourceRange (javascript_base d) =
      mkRange "file.js" (mkPosition 4 11) (mkPosition 4 17).
Proof.
cbv zeta.
set (literal := Literal (LString "a && b") None).
set (document :=
       JavaScriptDocument.make
         (fun _ => Some (mkRange "file.js" (mkPosition 4 10)
                           (mkPosition 4 18)))).
set (d := mkJavascriptExpression
            (newDatabindingExpression
               (mkRange "file.js" (mkPosition 4 11) (mkPosition 4 17))
               "a && b" aAndB) literal).
exists d.
assert (parseExpressionInJsStringLiteral (tableParser sampleTable) document
          literal = Some (mkJsLiteralResult (Some d) [])) as Hrun
  by reflexivity.
split; [exact Hrun|]. split; [reflexivity|].
destruct (js_literal_result_shape (tableParser sampleTable) document literal
            _ Hrun) as [_ Hshape].
destruct (Hshape d eq_refl)
  as (_ & _ & text & loc & range & _ & [= <-] & _ & Hrange).
exact Hrange.
Defined.

(** X18: [parseExpressionInJsStringLiteral] throws exactly when the node is
    a string literal for which the document has no source range; for every
    other node, and for every literal that is not a string, it returns even
    without a range. *)
Theorem js_literal_throws_iff
    (parseJs : string -> string -> LocationOffset -> string -> ParseResult)
    (document : JavaScriptDocument.t) (stringLiteral : Node) :
  parseExpressionInJsStringLiteral parseJs document stringLiteral = None <->
  (exists text loc, stringLiteral = Literal (LString text) loc) /\
  JavaScriptDocument.sourceRangeForNode document stringLiteral = None.
Proof.
unfold parseExpressionInJsStringLiteral. cbv zeta.
destruct stringLiteral as [v l|n l|o p c l|f args l|op a l|k ch l];
  try (split; [discriminate | intros [(t & lo & H) _]; discriminate H]).
destruct v as [text|n|b| |];
  try (split; [discriminate | intros [(t & lo & H) _]; discriminate H]).
destruct (JavaScriptDocument.sourceRangeForNode document _) as [range|].
- destruct (parseExpression parseJs text _) as [[program|warning]|];
    (split; [discriminate | intros [_ H]; discriminate H]).
- split; [|reflexivity]. intros _. split; [now exists text, l | reflexivity].
Qed.

(** ** Scans of several templates *)

(** X19: scanning a list of templates that is the concatenation of two lists
    gives the expressions of the first followed by those of the second, and
    likewise the warnings; so scanning one template gives what the nodes of
    its own content contribute, followed by the scan of the templates that
    the locator finds inside it. *)
Theorem template_scans_concatenate
    (parseJs : string -> string -> LocationOffset -> string -> ParseResult)
    (nodeWalkAll : ASTNode -> list ASTNode)
    (document : ParsedHtmlDocument.t) :
  (forall templates1 templates2,
      let scan := extractDataBindingsFromTemplates parseJs nodeWalkAll
                    document in
      scan (templates1 ++ templates2) =
        (fst (scan templates1) ++ fst (scan templates2),
         snd (scan templates1) ++ snd (scan templates2))) /\
  (forall getAllDataBindingTemplates template,
      let own :=
        fold_left (visitNode parseJs document)
          (nodeWalkAll (content template)) ([], []) in
      let nested :=
        extractDataBindingsFromTemplates parseJs nodeWalkAll document
          (getAllDataBindingTemplates (content template)) in
      scanDatabindingTemplateForExpressions parseJs nodeWalkAll
        getAllDataBindingTemplates document template =
        (fst own ++ fst nested, snd own ++ snd nested)).
Proof.
assert (forall templates1 templates2,
           extractDataBindingsFromTemplates parseJs nodeWalkAll document
             (templates1 ++ templates2) =
           (fst (extractDataBindingsFromTemplates parseJs nodeWalkAll
                   document templates1) ++
            fst (extractDataBindingsFromTemplates parseJs nodeWalkAll
                   document templates2),
            snd (extractDataBindingsFromTemplates parseJs nodeWalkAll
                   document templates1) ++
            snd (extractDataBindingsFromTemplates parseJs nodeWalkAll
                   document templates2))) as Happ.
{ intros t1 t2.
  rewrite !extractDataBindingsFromTemplates_flat. cbn [fst snd].
  now rewrite !flat_map_app. }
split; [exact Happ|].
intros getAll template own nested.
unfold scanDatabindingTemplateForExpressions. rewrite Happ.
fold nested. f_equal; f_equal;
  rewrite extractDataBindingsFromTemplates_flat; cbn [fst snd flat_map];
  rewrite app_nil_r; unfold own;
  now rewrite (fold_left_appends _ (visitNode_appends parseJs document)).
Qed.

(** ** Sub-expressions where a call is not allowed *)

(** X20: where a call is not allowed (a callee, an argument, the object of a
    member access), validating an expression yields nothing, or one
    property, or one warning, and never a property together with a warning:
    a rejected sub-expression records none of the identifiers inside it. *)
Theorem argument_yields_one_property_or_one_warning
    (this : DatabindingExpression) (expression : Node) :
  (recorded this expression false = [] /\
   reported this expression false = []) \/
  (exists p, recorded this expression false = [p] /\
             reported this expression false = []) \/
  (exists w, recorded this expression false = [] /\
             reported this expression false = [w]).
Proof.
unfold recorded, reported.
induction expression as [v l|n l|o IHo p _ c l|f _ args l|op a _ l|k ch l].
- left. split; reflexivity.
- right. left. eexists. split; reflexivity.
- exact IHo.
- right. right. eexists. split; reflexivity.
- right. right. eexists. split; reflexivity.
- right. right. eexists. split; reflexivity.
Qed.
